(** * python-docx (comment / tracked-change fork): run content, comment
      ranges, initials and list markers

    A shallow embedding of
    - [docx/oxml/text/run.py]: [CT_R], the run inner-content classes,
      [_RunContentAppender] and [_DelRunContentAppender];
    - [docx/oxml/text/paragraph.py]: the comment ranges, the text and the
      ids of [CT_P];
    - [docx/document.py]: [Document.add_comment] and
      [Document.fudge_list_markers];
    - [docx/text/insrun.py], [docx/text/delrun.py]: the [rpr] setters.

    Python [str] is [string]; a character is an [ascii], read as the code
    point of that number (Latin-1).  A text that [upper()] has made can lie
    outside Latin-1 and is the list of its code points.  An lxml element is
    a value tree where only the element's own child list is touched, and a
    node of a store, with the place where it is linked, where siblings are
    inserted next to a referenced element.  A call that can raise returns
    the exception in the place of its result; where the caller's objects
    have changed by then, it returns them as they are left. *)

From Stdlib Require Import String Ascii List ZArith Lia Bool.
From stdpp Require Import base option list gmap strings pretty.
Import ListNotations.

#[local] Set Warnings "-register-all".

Local Open Scope string_scope.
Local Open Scope list_scope.

(** ** Characters and Python string helpers *)

Definition TAB : ascii := ascii_of_nat 9.
Definition LF : ascii := ascii_of_nat 10.
Definition CR : ascii := ascii_of_nat 13.
Definition SPACE : ascii := ascii_of_nat 32.

(** [str.isspace] of one character, on code points below 256. *)
Definition isspace (c : ascii) : bool :=
  let n := nat_of_ascii c in
  (((9 <=? n) && (n <=? 13)) || ((28 <=? n) && (n <=? 32))
   || (n =? 133) || (n =? 160))%nat.

(** [str.isprintable] of one character, on code points below 256. *)
Definition isprintable (c : ascii) : bool :=
  let n := nat_of_ascii c in
  (((32 <=? n) && (n <=? 126)) || ((161 <=? n) && negb (n =? 173)))%nat.

(** ["".join(xs)] for a list of strings. *)
Definition join (xs : list string) : string :=
  fold_right String.append "" xs.

Fixpoint lstrip (s : string) : string :=
  match s with
  | EmptyString => EmptyString
  | String c s' => if isspace c then lstrip s' else s
  end.

Fixpoint rstrip (s : string) : string :=
  match s with
  | EmptyString => EmptyString
  | String c s' =>
      match rstrip s' with
      | EmptyString => if isspace c then EmptyString else String c EmptyString
      | t => String c t
      end
  end.

(** [s.strip()] *)
Definition strip (s : string) : string := lstrip (rstrip s).

(** ** Exceptions *)

Inductive exn : Type := IndexError | TypeError | ValueError.

(** A computation that returns or raises. *)
Definition result (A : Type) : Type := (exn + A)%type.

Definition rbind {A B} (m : result A) (k : A -> result B) : result B :=
  match m with
  | inl e => inl e
  | inr a => k a
  end.

Fixpoint rmap {A B} (f : A -> result B) (l : list A) : result (list B) :=
  match l with
  | [] => inr []
  | x :: l' => rbind (f x) (fun y => rbind (rmap f l') (fun ys => inr (y :: ys)))
  end.

(** ** lxml elements as values *)

Inductive element : Type :=
  Element { tag : string;
            attrib : list (string * string);
            text : option string;
            children : list element }.

(** [OxmlElement(tag)]: a new element without attributes, text or children.
    Tags and attribute names are kept in their prefixed form, [qn] being
    a renaming. *)
Definition OxmlElement (t : string) : element := Element t [] None [].

(** [e.get(key)] *)
Fixpoint get_attr (key : string) (a : list (string * string)) : option string :=
  match a with
  | [] => None
  | (k, v) :: a' => if String.eqb k key then Some v else get_attr key a'
  end.

(** [e.set(key, value)]: replaces the value of an attribute that exists and
    adds the attribute at the end otherwise. *)
Fixpoint set_attr (key value : string) (a : list (string * string))
  : list (string * string) :=
  match a with
  | [] => [(key, value)]
  | (k, v) :: a' =>
      if String.eqb k key then (k, value) :: a' else (k, v) :: set_attr key value a'
  end.

Definition set (e : element) (key value : string) : element :=
  Element (tag e) (set_attr key value (attrib e)) (text e) (children e).

(** The characters that lxml takes in a text: tab, newline, carriage
    return and every code point from 32 on.  The other control characters,
    the null character among them, are not XML. *)
Definition xml_char (c : ascii) : bool :=
  let n := nat_of_ascii c in
  ((n =? 9) || (n =? 10) || (n =? 13) || (32 <=? n))%nat.

Fixpoint xml_text (s : string) : bool :=
  match s with
  | EmptyString => true
  | String c s' => xml_char c && xml_text s'
  end.

(** [e.text = s]: lxml raises [ValueError] for a text that is not XML and
    leaves the element as it is. *)
Definition set_text (e : element) (s : string) : result element :=
  if xml_text s
  then inr (Element (tag e) (attrib e) (Some s) (children e))
  else inl ValueError.

Definition with_children (e : element) (cs : list element) : element :=
  Element (tag e) (attrib e) (text e) cs.

(** [parent.append(child)] *)
Definition append (parent child : element) : element :=
  with_children parent (children parent ++ [child]).

(** [parent.find(qn(t))]: the first child with that tag. *)
Definition find (t : string) (e : element) : option element :=
  List.find (fun c => String.eqb (tag c) t) (children e).

(** ** Run inner-content classes *)

(** The custom element classes of run inner content with a text equivalent;
    lxml picks the class of an element by its tag. *)
Inductive inner_class : Type :=
  CT_Br | CT_Cr | CT_NoBreakHyphen | CT_PTab | CT_Text | CT_TabStop.

Definition class_of_tag (t : string) : option inner_class :=
  if String.eqb t "w:br" then Some CT_Br
  else if String.eqb t "w:cr" then Some CT_Cr
  else if String.eqb t "w:noBreakHyphen" then Some CT_NoBreakHyphen
  else if String.eqb t "w:ptab" then Some CT_PTab
  else if String.eqb t "w:t" then Some CT_Text
  else if String.eqb t "w:tab" then Some CT_TabStop
  else None.

(** [CT_Br.type]: [OptionalAttribute("w:type", ST_BrType,
    default="textWrapping")]. *)
Definition br_type (e : element) : string :=
  match get_attr "w:type" (attrib e) with
  | Some v => v
  | None => "textWrapping"
  end.

(** [__str__] of each class. *)
Definition str (c : inner_class) (e : element) : string :=
  match c with
  | CT_Br => if String.eqb (br_type e) "textWrapping"
             then String LF "" else ""
  | CT_Cr => String LF ""
  | CT_NoBreakHyphen => "-"
  | CT_PTab => String TAB ""
  | CT_Text => match text e with Some s => s | None => "" end
  | CT_TabStop => String TAB ""
  end.

(** ** [CT_R] *)

Module CT_R.

(** [_add_t(text=text)], [add_tab()], [add_br()]: the adders the
    [ZeroOrMore] declarations generate.  None of the three declares a
    successor, so the new child goes to the end.  [_add_t] gives the new
    child its text before it puts it into the run: when lxml refuses the
    text, the run has not changed. *)
Definition _add_t (r : element) (txt : string) : result (element * element) :=
  rbind (set_text (OxmlElement "w:t") txt) (fun t => inr (append r t, t)).

Definition add_tab (r : element) : element := append r (OxmlElement "w:tab").

Definition add_br (r : element) : element := append r (OxmlElement "w:br").

(** [t.set(...)] acts on the child that [_add_t] has just appended, the
    last one. *)
Definition set_last_child (r : element) (key value : string) : element :=
  match rev (children r) with
  | [] => r
  | t :: before => with_children r (rev before ++ [set t key value])
  end.

Definition add_t (r : element) (txt : string) : result element :=
  rbind (_add_t r txt) (fun '(r1, _) =>
    inr (if (String.length (strip txt) <? String.length txt)%nat
         then set_last_child r1 "xml:space" "preserve"
         else r1)).

(** The [clear_content] in force: the class body defines the method
    twice and the second definition replaces the first.
    [self[1:] if self.rPr is not None else self[:]] are removed. *)
Definition clear_content (r : element) : element :=
  match find "w:rPr" r with
  | Some _ => with_children r (firstn 1 (children r))
  | None => with_children r []
  end.

(** The first definition of [clear_content], replaced by the second:
    every child that [./*[not(self::w:rPr)]] selects is removed. *)
Definition clear_content_xpath (r : element) : element :=
  with_children r
    (List.filter (fun c => String.eqb (tag c) "w:rPr") (children r)).

(** [get_or_add_rPr()], with [_insert_rPr]: a new [w:rPr] goes to the
    front, [self.insert(0, rPr)], when the run has none. *)
Definition get_or_add_rPr (r : element) : element :=
  match find "w:rPr" r with
  | Some _ => r
  | None => with_children r (OxmlElement "w:rPr" :: children r)
  end.

(** The [text] getter: the children that
    [w:br | w:cr | w:noBreakHyphen | w:ptab | w:t | w:tab] selects, in
    document order, each as its [str]. *)
Definition item_str (e : element) : option string :=
  match class_of_tag (tag e) with
  | Some c => Some (str c e)
  | None => None
  end.

Definition text_items (r : element) : list string :=
  omap item_str (children r).

Definition text (r : element) : string := join (text_items r).

End CT_R.

(** ** [_RunContentAppender] *)

Module _RunContentAppender.

(** The appender: the run it writes to and its buffer. *)
Record appender : Type := Appender { _r : element; _bfr : list ascii }.

Definition init (r : element) : appender := Appender r [].

(** [flush]: when [add_t] raises, neither the run nor the buffer has
    changed. *)
Definition flush (a : appender) : result appender :=
  let txt := string_of_list_ascii (_bfr a) in
  if String.eqb txt "" then inr (Appender (_r a) [])
  else rbind (CT_R.add_t (_r a) txt) (fun r => inr (Appender r [])).

Definition add_char (a : appender) (char : ascii) : result appender :=
  if Ascii.eqb char TAB then
    rbind (flush a) (fun a1 => inr (Appender (CT_R.add_tab (_r a1)) (_bfr a1)))
  else if Ascii.eqb char CR || Ascii.eqb char LF then
    rbind (flush a) (fun a1 => inr (Appender (CT_R.add_br (_r a1)) (_bfr a1)))
  else inr (Appender (_r a) (_bfr a ++ [char])).

(** [for char in text: self.add_char(char)]: the appender at the end of
    the loop or at the exception, and the exception. *)
Fixpoint add_chars (a : appender) (s : string) : appender * option exn :=
  match s with
  | EmptyString => (a, None)
  | String c s' =>
      match add_char a c with
      | inl e => (a, Some e)
      | inr a1 => add_chars a1 s'
      end
  end.

Definition add_text (a : appender) (s : string) : appender * option exn :=
  match add_chars a s with
  | (a1, Some e) => (a1, Some e)
  | (a1, None) =>
      match flush a1 with
      | inl e => (a1, Some e)
      | inr a2 => (a2, None)
      end
  end.

(** The run when the call returns or raises, and the exception. *)
Definition append_to_run_from_text (r : element) (s : string)
  : element * option exn :=
  let '(a, e) := add_text (init r) s in (_r a, e).

End _RunContentAppender.

(** The [text] setter of [CT_R]: the run afterwards, and the exception that
    leaves the setter, if any.  The run is cleared before the first
    character is looked at. *)
Definition CT_R_set_text (r : element) (s : string) : element * option exn :=
  _RunContentAppender.append_to_run_from_text (CT_R.clear_content r) s.

(** The run content that a text produces in a run without children: all of
    it when the appender returns, and what is there when it raises. *)
Definition encode (s : string) : list element :=
  children
    (fst (_RunContentAppender.append_to_run_from_text (OxmlElement "w:r") s)).

(** ** The initials heuristic of [Document.add_comment] *)

(** [c.isupper()] on code points below 256: the upper-case letters. *)
Definition isupper (c : ascii) : bool :=
  let n := nat_of_ascii c in
  (((65 <=? n) && (n <=? 90)) || ((192 <=? n) && (n <=? 222) && negb (n =? 215)))%nat.

(** A text as the list of its code points. *)
Definition code_points (s : string) : list N :=
  map N_of_ascii (list_ascii_of_string s).

(** [c.upper()] for a character of code point below 256, as code points.
    The small letters go to their capitals, 32 below; the capital of the
    micro sign (181) is the Greek capital mu (924) and that of y with
    diaeresis (255) is 376, both outside Latin-1, and the sharp s (223)
    becomes two letters S. *)
Definition upper_char (c : ascii) : list N :=
  let n := nat_of_ascii c in
  if (((97 <=? n) && (n <=? 122))
      || ((224 <=? n) && (n <=? 254) && negb (n =? 247)))%nat
  then [N.of_nat (n - 32)]
  else if (n =? 181)%nat then [924%N]
  else if (n =? 223)%nat then [83%N; 83%N]
  else if (n =? 255)%nat then [376%N]
  else [N.of_nat n].

(** [s.upper()]: the characters are mapped one by one. *)
Definition str_upper (s : string) : list N :=
  flat_map upper_char (list_ascii_of_string s).

Fixpoint filter_chars (f : ascii -> bool) (s : string) : string :=
  match s with
  | EmptyString => EmptyString
  | String c s' => if f c then String c (filter_chars f s') else filter_chars f s'
  end.

(** [n.split(" ")]: cut at every single space; two spaces in a row, a
    leading or a trailing space give an empty piece. *)
Fixpoint split_space (s : string) : list string :=
  match s with
  | EmptyString => [EmptyString]
  | String c s' =>
      if Ascii.eqb c SPACE then EmptyString :: split_space s'
      else match split_space s' with
           | t :: ts => String c t :: ts
           | [] => [String c EmptyString]
           end
  end.

(** [t[0]] *)
Definition first_char (t : string) : result ascii :=
  match t with
  | EmptyString => inl IndexError
  | String c _ => inr c
  end.

(** The nested function [upper]: [c for c in n if c.isupper()], joined. *)
Definition upper (n : string) : string := filter_chars isupper n.

(** The nested function [splitter]:
    ["".join([t[0] for t in n.split(" ")]).upper()]. *)
Definition splitter (n : string) : result (list N) :=
  rbind (rmap first_char (split_space n))
        (fun cs => inr (str_upper (string_of_list_ascii cs))).

(** The [if initials is None:] block of [Document.add_comment]. *)
Definition derive_initials (author : string) (initials : option string)
  : result (list N) :=
  match initials with
  | Some i => inr (code_points i)
  | None =>
      let i := upper author in
      if String.eqb i "" then splitter author else inr (code_points i)
  end.

(** The rule in the words of the specification, to compare with: "take all
    uppercase letters of author; if the result is empty, take the first
    character of each whitespace-separated token in author, uppercased". *)
Fixpoint ws_tokens_from (cur : list ascii) (s : string) : list string :=
  let close := match cur with
               | [] => []
               | _ => [string_of_list_ascii cur]
               end in
  match s with
  | EmptyString => close
  | String c s' =>
      if isspace c then close ++ ws_tokens_from [] s'
      else ws_tokens_from (cur ++ [c]) s'
  end.

Definition ws_tokens (s : string) : list string := ws_tokens_from [] s.

Definition spec_deriveInitials (author : string) : list N :=
  let u := filter_chars isupper author in
  if String.eqb u "" then
    str_upper (string_of_list_ascii
                 (omap (fun t => match t with
                                 | EmptyString => None
                                 | String c _ => Some c
                                 end) (ws_tokens author)))
  else code_points u.

(** ** [Document.fudge_list_markers] *)

(** The elements below [e], in document order: what [.//*] selects. *)
Fixpoint descendants (e : element) : list element :=
  match e with
  | Element _ _ _ cs => flat_map (fun c => c :: descendants c) cs
  end.

(** [x.xpath(".//" + t)] *)
Definition xpath_descendants (t : string) (x : element) : list element :=
  List.filter (fun d => String.eqb (tag d) t) (descendants x).

(** The lambda [get]: [x.xpath(pth)[0].attrib.values()[0]]. *)
Definition get (t : string) (x : element) : result string :=
  match xpath_descendants t x with
  | [] => inl IndexError
  | d :: _ =>
      match attrib d with
      | [] => inl IndexError
      | (_, v) :: _ => inr v
      end
  end.

(** One entry of [para_num_groups], from one entry [p] of [paras_numPr]. *)
Definition para_num_group (p : list element) : result (option (string * string)) :=
  match p with
  | [] => inr None
  | p0 :: _ =>
      rbind (get "w:numId" p0) (fun numId =>
      rbind (get "w:ilvl" p0) (fun ilvl => inr (Some (numId, ilvl))))
  end.

(** The loop that fills [enumerations] and [para_nums]. *)
Fixpoint enumerate (enumerations : gmap (string * string) Z)
    (groups : list (option (string * string))) : list (option Z) :=
  match groups with
  | [] => []
  | None :: rest => None :: enumerate enumerations rest
  | Some g :: rest =>
      let n := match enumerations !! g with
               | Some k => (k + 1)%Z
               | None => 1%Z
               end in
      Some n :: enumerate (<[g := n]> enumerations) rest
  end.

(** [num + ")"] with [num] an [int]: neither [int.__add__] nor
    [str.__radd__] accepts the pair, Python raises [TypeError]. *)
Definition int_plus_str (num : Z) (s : string) : result string := inl TypeError.

(** [sep.join(xs)] *)
Fixpoint join_sep (sep : string) (xs : list string) : string :=
  match xs with
  | [] => EmptyString
  | [x] => x
  | x :: xs' => x ++ sep ++ join_sep sep xs'
  end.

Section FudgeListMarkers.

(** The [text] property of the [Paragraph] proxy lives in
    [docx/text/paragraph.py], which is not among the sources at hand; its
    getter and setter are taken as they come. *)
Variable Paragraph_text : element -> string.
Variable Paragraph_set_text : element -> string -> element.

(** The last loop, over [zip(self.paragraphs, para_nums)].  [done] holds
    the paragraphs already passed, in reverse; the result is the document
    at the end of the loop or at the exception, and the exception. *)
Fixpoint overwrite (done : list element) (todo : list (element * option Z))
  : list element * option exn :=
  match todo with
  | [] => (rev done, None)
  | (par, None) :: rest => overwrite (par :: done) rest
  | (par, Some num) :: rest =>
      match int_plus_str num ")" with
      | inl e => (rev done ++ par :: map fst rest, Some e)
      | inr marker =>
          let par' := Paragraph_set_text par
                        (join_sep " " [marker; Paragraph_text par]) in
          overwrite (par' :: done) rest
      end
  end.

(** [fudge_list_markers] on the paragraphs of the document: the
    paragraphs afterwards, and the exception that leaves the method, if
    any.  The bare [except:] turns every exception of the lookups into a
    plain [return]. *)
Definition fudge_list_markers (paragraphs : list element)
  : list element * option exn :=
  let paras_numPr := map (xpath_descendants "w:numPr") paragraphs in
  match rmap para_num_group paras_numPr with
  | inl _ => (paragraphs, None)
  | inr para_num_groups =>
      let para_nums := enumerate ∅ para_num_groups in
      overwrite [] (combine paragraphs para_nums)
  end.

End FudgeListMarkers.

(** Some lookup of [fudge_list_markers] fails: a paragraph has a [w:numPr]
    below it whose first one lacks a [w:numId] or a [w:ilvl] with an
    attribute. *)
Definition lookup_fails_in (par : element) : bool :=
  match xpath_descendants "w:numPr" par with
  | [] => false
  | p0 :: _ =>
      match get "w:numId" p0, get "w:ilvl" p0 with
      | inr _, inr _ => false
      | _, _ => true
      end
  end.

Definition lookup_fails (paragraphs : list element) : bool :=
  existsb lookup_fails_in paragraphs.

(** A paragraph with a [w:numPr] below it. *)
Definition is_list_item (par : element) : bool :=
  match xpath_descendants "w:numPr" par with
  | [] => false
  | _ :: _ => true
  end.

Definition is_some {A} (o : option A) : bool :=
  match o with
  | Some _ => true
  | None => false
  end.

(** ** The element tree as a store *)

(** [addprevious] and [addnext] change the child list of the parent of the
    element they are called on, and the caller keeps its references to the
    elements.  Elements are therefore nodes of a store, named by a number,
    each with the place where it is linked and the names of its children. *)

(** Where an element is linked.  lxml makes a new element as the root
    element of a document of its own, and so does [OxmlElement]; a child
    is under its parent; an element that [remove] has taken out of its
    parent is under nothing and is the root element of no document: it
    stands in a row of siblings of its own, alone until [addprevious] or
    [addnext] gives it one.  [sibs] is that row, the element included. *)
Inductive position : Type :=
  | Root
  | Under (p : nat)
  | Beside (sibs : list nat).

Record node : Type :=
  Node { ntag : string;
         nattrib : list (string * string);
         pos : position;
         kids : list nat }.

(** A comment of the comments part.  The initials can be a text that
    [upper()] has made. *)
Record comment : Type :=
  Comment { _id : Z;
            c_author : string;
            c_initials : list N;
            c_dtime : string;
            c_paragraphs : list string }.

Record state : Type :=
  State { tree : gmap nat node;
          comments : list comment }.

(** Computations on the document: the state goes on also when an exception
    is raised. *)
Definition M (A : Type) : Type := state -> result A * state.

Definition ret {A} (a : A) : M A := fun s => (inr a, s).

Definition bind {A B} (m : M A) (k : A -> M B) : M B :=
  fun s => match m s with
           | (inl e, s') => (inl e, s')
           | (inr a, s') => k a s'
           end.

Declare Scope docx_scope.
Delimit Scope docx_scope with docx.
Notation "x <- m ;; k" := (bind m (fun x => k))
  (at level 100, m at next level, right associativity) : docx_scope.
Notation "m ;;; k" := (bind m (fun _ => k))
  (at level 100, right associativity) : docx_scope.

Definition update_tree (f : gmap nat node -> gmap nat node) : M unit :=
  fun s => (inr tt, State (f (tree s)) (comments s)).

Definition set_kids (n : node) (l : list nat) : node :=
  Node (ntag n) (nattrib n) (pos n) l.

Definition set_pos (n : node) (p : position) : node :=
  Node (ntag n) (nattrib n) p (kids n).

Definition set_nattrib (n : node) (key value : string) : node :=
  Node (ntag n) (set_attr key value (nattrib n)) (pos n) (kids n).

(** [OxmlElement(tag)] in the store: a new element under a name not in use,
    the root element of its document. *)
Definition new_element (t : string) : M nat :=
  fun s => let i := fresh (dom (tree s)) in
           (inr i, State (<[i := Node t [] Root []]> (tree s)) (comments s)).

(** [elm._id = v]: the [w:id] attribute, in decimal. *)
Definition set_id (i : nat) (v : Z) : M unit :=
  update_tree (alter (fun n => set_nattrib n "w:id" (pretty v)) i).

(** The place of an element of the store. *)
Definition pos_of (t : gmap nat node) (i : nat) : option position :=
  pos <$> t !! i.

(** [elm.getparent()]: the parent when it is an element. *)
Definition getparent (t : gmap nat node) (i : nat) : option nat :=
  match pos_of t i with
  | Some (Under p) => Some p
  | _ => None
  end.

(** [new] before, respectively after, the first [x] of a child list. *)
Fixpoint insert_before (x new : nat) (l : list nat) : list nat :=
  match l with
  | [] => []
  | y :: l' => if decide (y = x) then new :: y :: l'
               else y :: insert_before x new l'
  end.

Fixpoint insert_after (x new : nat) (l : list nat) : list nat :=
  match l with
  | [] => []
  | y :: l' => if decide (y = x) then y :: new :: l'
               else y :: insert_after x new l'
  end.

Fixpoint remove_kid (x : nat) (l : list nat) : list nat :=
  match l with
  | [] => []
  | y :: l' => if decide (y = x) then l' else y :: remove_kid x l'
  end.

(** Every element of a row of siblings without parent is told the row. *)
Definition relink (l : list nat) (t : gmap nat node) : gmap nat node :=
  fold_right (fun j t' => alter (fun n => set_pos n (Beside l)) j t') t l.

(** The row of siblings of an element that has no parent. *)
Definition row_of (t : gmap nat node) (i : nat) : list nat :=
  match pos_of t i with
  | Some (Beside l) => l
  | _ => [i]
  end.

(** lxml moves an element that is linked somewhere else: it leaves the
    child list of its former parent, or the row of its former siblings. *)
Definition detach (i : nat) (t : gmap nat node) : gmap nat node :=
  match pos_of t i with
  | Some (Under p) =>
      alter (fun n => set_pos n (Beside [i])) i
        (alter (fun n => set_kids n (remove_kid i (kids n))) p t)
  | Some (Beside l) =>
      alter (fun n => set_pos n (Beside [i])) i (relink (remove_kid i l) t)
  | _ => t
  end.

(** [self.addprevious(new)].  The root element of a document takes no
    element as a sibling: lxml raises [TypeError].  An element without
    parent that is no root element takes it, and the two are siblings
    without a parent. *)
Definition addprevious (self new : nat) : M unit :=
  fun s =>
    match pos_of (tree s) self with
    | Some (Under p) =>
        let t1 := detach new (tree s) in
        let t2 := alter (fun n => set_kids n (insert_before self new (kids n))) p t1 in
        let t3 := alter (fun n => set_pos n (Under p)) new t2 in
        (inr tt, State t3 (comments s))
    | Some (Beside _) =>
        let t1 := detach new (tree s) in
        let l := insert_before self new (row_of t1 self) in
        (inr tt, State (relink l t1) (comments s))
    | _ => (inl TypeError, s)
    end.

(** [self.addnext(new)] *)
Definition addnext (self new : nat) : M unit :=
  fun s =>
    match pos_of (tree s) self with
    | Some (Under p) =>
        let t1 := detach new (tree s) in
        let t2 := alter (fun n => set_kids n (insert_after self new (kids n))) p t1 in
        let t3 := alter (fun n => set_pos n (Under p)) new t2 in
        (inr tt, State t3 (comments s))
    | Some (Beside _) =>
        let t1 := detach new (tree s) in
        let l := insert_after self new (row_of t1 self) in
        (inr tt, State (relink l t1) (comments s))
    | _ => (inl TypeError, s)
    end.

(** [self.append(new)] *)
Definition append_child (self new : nat) : M unit :=
  update_tree (fun t =>
    let t1 := detach new t in
    let t2 := alter (fun n => set_kids n (kids n ++ [new])) self t1 in
    alter (fun n => set_pos n (Under self)) new t2).

(** ** Comment ranges: [CT_R.mark_comment_start], [mark_comment_end],
    [link_comment] *)

Local Open Scope docx_scope.

Definition mark_comment_start (self : nat) (id : Z) : M unit :=
  comm_start <- new_element "w:commentRangeStart" ;;
  set_id comm_start id ;;;
  addprevious self comm_start.

Definition mark_comment_end (self : nat) (id : Z) : M unit :=
  comm_end <- new_element "w:commentRangeEnd" ;;
  set_id comm_end id ;;;
  addnext self comm_end ;;;
  reference <- new_element "w:commentReference" ;;
  set_id reference id ;;;
  ref_run_elem <- new_element "w:r" ;;
  append_child ref_run_elem reference ;;;
  addnext comm_end ref_run_elem.

Definition link_comment (self : nat) (id : Z) : M unit :=
  mark_comment_start self id ;;;
  mark_comment_end self id.

(** ** [Document.add_comment] *)

Section AddComment.

(** The comments part ([docx/oxml/comments.py]) is not among the sources
    at hand.  Its [add_comment] adds a comment under the next id of the
    collection, whatever that id is, and [_add_p] gives it its body
    paragraph. *)
Variable next_comment_id : list comment -> Z.

Definition comments_add_comment (author : string) (initials : list N)
    (dtime : string) : M comment :=
  fun s =>
    let c := Comment (next_comment_id (comments s)) author initials dtime [] in
    (inr c, State (tree s) (comments s ++ [c])).

(** [comment._add_p(text)], on the comment just added, the last one. *)
Definition comment_add_p (c : comment) (txt : string) : M comment :=
  fun s =>
    let c' := Comment (_id c) (c_author c) (c_initials c) (c_dtime c)
                (c_paragraphs c ++ [txt]) in
    (inr c', State (tree s) (removelast (comments s) ++ [c'])).

Definition lift {A} (r : result A) : M A :=
  fun s => (r, s).

Definition add_comment (start_run end_run : nat)
    (author dtime comment_text : string) (initials : option string)
  : M comment :=
  initials' <- lift (derive_initials author initials) ;;
  c <- comments_add_comment author initials' dtime ;;
  c' <- comment_add_p c comment_text ;;
  mark_comment_start start_run (_id c') ;;;
  mark_comment_end end_run (_id c') ;;;
  ret c'.

End AddComment.

(** ** Reading the tree *)

(** The child list of an element of the store. *)
Definition kids_of (t : gmap nat node) (i : nat) : list nat :=
  match t !! i with
  | Some n => kids n
  | None => []
  end.

(** [i] is an element with tag [tg] whose [w:id] is [id]. *)
Definition is_marker (t : gmap nat node) (i : nat) (tg : string) (id : Z) : Prop :=
  exists n, t !! i = Some n /\ ntag n = tg
            /\ get_attr "w:id" (nattrib n) = Some (pretty id).

(** [i] is a run whose only child is a [w:commentReference] with [id]. *)
Definition is_reference_run (t : gmap nat node) (i : nat) (id : Z) : Prop :=
  exists n r, t !! i = Some n /\ ntag n = "w:r" /\ kids n = [r]
              /\ is_marker t r "w:commentReference" id.

(** [x] is a child of [p], at the position after [pre] and before [post],
    and the siblings are elements of the store. *)
Definition child_at (t : gmap nat node) (p : nat) (pre : list nat) (x : nat)
    (post : list nat) : Prop :=
  exists nx np,
    t !! x = Some nx /\ pos nx = Under p /\
    t !! p = Some np /\ kids np = pre ++ x :: post /\
    (x ∉ pre) /\ Forall (fun y => is_Some (t !! y)) (pre ++ post).

(** [x] is linked into the tree: it is a child of its parent. *)
Definition attached (t : gmap nat node) (x : nat) : Prop :=
  exists p pre post, child_at t p pre x post.

(** The document-order index of [x] in a child list: its first place. *)
Fixpoint index_of (x : nat) (l : list nat) : option nat :=
  match l with
  | [] => None
  | y :: l' => if decide (y = x) then Some 0 else S <$> index_of x l'
  end.

(** [a] is directly followed by [b] among the children of some element. *)
Definition next_sibling (t : gmap nat node) (a b : nat) : Prop :=
  exists p np l1 l2, t !! p = Some np /\ kids np = l1 ++ a :: b :: l2.

(** ** Vocabulary of the statements on run content *)

Definition is_rPr (e : element) : bool := String.eqb (tag e) "w:rPr".

(** The run of the data model: a [w:rPr], where there is one, is the first
    child, and there is no second one. *)
Definition rPr_leading (r : element) : bool :=
  forallb (fun c => negb (is_rPr c)) (tl (children r)).

(** A [w:t] element asks for its white space to be kept. *)
Definition preserve_whitespace (e : element) : bool :=
  match get_attr "xml:space" (attrib e) with
  | Some v => String.eqb v "preserve"
  | None => false
  end.

Fixpoint last_char (s : string) : option ascii :=
  match s with
  | EmptyString => None
  | String c EmptyString => Some c
  | String _ s' => last_char s'
  end.

Definition first_is_space (s : string) : bool :=
  match s with
  | EmptyString => false
  | String c _ => isspace c
  end.

Definition last_is_space (s : string) : bool :=
  match last_char s with
  | Some c => isspace c
  | None => false
  end.

Definition leading_or_trailing_space (s : string) : bool :=
  first_is_space s || last_is_space s.

(** The three kinds of element the appender adds. *)
Definition text_atom (txt : string) : element :=
  Element "w:t"
    (if (String.length (strip txt) <? String.length txt)%nat
     then [("xml:space", "preserve")] else [])
    (Some txt) [].

Definition tab_atom : element := OxmlElement "w:tab".

Definition br_atom : element := OxmlElement "w:br".

(** What a flush adds for a buffer that lxml takes. *)
Definition flushed (bfr : list ascii) : list element :=
  match bfr with
  | [] => []
  | _ => [text_atom (string_of_list_ascii bfr)]
  end.

(** What the appender adds for the rest [s] of its input when its buffer
    holds [bfr] and lxml takes every text. *)
Fixpoint atoms_from (bfr : list ascii) (s : string) : list element :=
  match s with
  | EmptyString => flushed bfr
  | String c s' =>
      if Ascii.eqb c TAB then flushed bfr ++ tab_atom :: atoms_from [] s'
      else if Ascii.eqb c CR || Ascii.eqb c LF
           then flushed bfr ++ br_atom :: atoms_from [] s'
           else atoms_from (bfr ++ [c]) s'
  end.

(** What the appender has added when it returns or raises, and the
    exception: [atoms_from] up to the first flush that lxml refuses. *)
Fixpoint written_from (bfr : list ascii) (s : string)
  : list element * option exn :=
  let ok := xml_text (string_of_list_ascii bfr) in
  match s with
  | EmptyString => if ok then (flushed bfr, None) else ([], Some ValueError)
  | String c s' =>
      if Ascii.eqb c TAB then
        if ok then (flushed bfr ++ tab_atom :: fst (written_from [] s'),
                    snd (written_from [] s'))
        else ([], Some ValueError)
      else if Ascii.eqb c CR || Ascii.eqb c LF then
        if ok then (flushed bfr ++ br_atom :: fst (written_from [] s'),
                    snd (written_from [] s'))
        else ([], Some ValueError)
      else written_from (bfr ++ [c]) s'
  end.

(** The characters at which the appender flushes. *)
Definition is_separator (c : ascii) : bool :=
  Ascii.eqb c TAB || Ascii.eqb c CR || Ascii.eqb c LF.

(** A text of printable characters, tabs and newlines. *)
Fixpoint codec_text (s : string) : bool :=
  match s with
  | EmptyString => true
  | String c s' =>
      (isprintable c || Ascii.eqb c TAB || Ascii.eqb c LF) && codec_text s'
  end.

(** A text with every carriage return turned into a newline. *)
Fixpoint cr_to_lf (s : string) : string :=
  match s with
  | EmptyString => EmptyString
  | String c s' => String (if Ascii.eqb c CR then LF else c) (cr_to_lf s')
  end.

(** The text equivalent of a child list. *)
Definition text_of (l : list element) : string := join (omap CT_R.item_str l).

(** ** Vocabulary of the statements on initials *)

Definition head_char (t : string) : option ascii :=
  match t with
  | EmptyString => None
  | String c _ => Some c
  end.

(** The first characters of the pieces that have one. *)
Definition heads (ts : list string) : list ascii := omap head_char ts.

Definition nonempty (t : string) : bool :=
  match t with
  | EmptyString => false
  | String _ _ => true
  end.

Fixpoint has_char (c : ascii) (s : string) : bool :=
  match s with
  | EmptyString => false
  | String x s' => Ascii.eqb x c || has_char c s'
  end.

(** ** Sample data *)

Definition sample_run : element :=
  Element "w:r" []
    None
    [ Element "w:rPr" [] None [Element "w:b" [] None []];
      Element "w:t" [] (Some "old") [];
      Element "w:drawing" [] None [];
      Element "w:br" [("w:type", "page")] None [] ].

Definition sample_text : string :=
  String "a" (String TAB (String "b" (String LF "c"))).

(** A form feed, which is no XML character. *)
Definition form_feed : string := String (ascii_of_nat 12) "".

(** A text with a form feed in its second piece. *)
Definition sample_refused_text : string :=
  String "a" (String TAB (String "b" (form_feed ++ "c"))).

Definition sample_breaks : element :=
  Element "w:r" [] None
    [ Element "w:t" [] (Some "a") [];
      Element "w:br" [("w:type", "page")] None [];
      Element "w:t" [] (Some "b") [];
      Element "w:br" [] None [];
      Element "w:t" [] (Some "c") [] ].

Definition ryan_tab_mannion : string :=
  ("ryan" ++ String TAB "mannion")%string.

Definition ryan_two_spaces_mannion : string := "ryan  mannion".

(** A document of two paragraphs: a plain one, and a list item whose
    [w:numPr] has an indent level and no [w:numId]. *)
Definition sample_paragraphs : list element :=
  [ Element "w:p" [] None
      [ Element "w:r" [] None [Element "w:t" [] (Some "plain") []] ];
    Element "w:p" [] None
      [ Element "w:pPr" [] None
          [ Element "w:numPr" [] None
              [ Element "w:ilvl" [("w:val", "0")] None [] ] ];
        Element "w:r" [] None [Element "w:t" [] (Some "item") []] ] ].

(** A reading and a writing of the text of a paragraph, for the samples. *)
Definition sample_Paragraph_text (p : element) : string :=
  join (map CT_R.text (children p)).

Definition sample_Paragraph_set_text (p : element) (s : string) : element :=
  with_children p [fst (CT_R_set_text (OxmlElement "w:r") s)].

(** A paragraph, element 0, with two runs, elements 1 and 2, and a second
    paragraph, element 3, with one run, element 4. *)
Definition sample_tree : gmap nat node :=
  <[0 := Node "w:p" [] Root [1; 2]]>
    (<[1 := Node "w:r" [] (Under 0) []]>
       (<[2 := Node "w:r" [] (Under 0) []]>
          (<[3 := Node "w:p" [] Root [4]]>
             (<[4 := Node "w:r" [] (Under 3) []]> ∅)))).

Definition sample_state : state := State sample_tree [].

(** An id for the next comment, for the samples: the number of comments. *)
Definition sample_next_comment_id (cs : list comment) : Z :=
  Z.of_nat (length cs).

(** A comment whose end run, element 1, comes before its start run,
    element 2, in the same paragraph. *)
Definition reversed_span : result comment * state :=
  add_comment sample_next_comment_id 2 1 "Ryan Mannion" "now" "note" None
    sample_state.

(** A comment from a run of the first paragraph, element 1, to the run of
    the second one, element 4. *)
Definition crossing_span : result comment * state :=
  add_comment sample_next_comment_id 1 4 "Ryan Mannion" "now" "note" None
    sample_state.

(** A run whose [w:rPr] is not its first child. *)
Definition misplaced_rPr_run : element :=
  Element "w:r" [] None
    [ Element "w:t" [] (Some "x") []; Element "w:rPr" [] None [] ].

(** A document of two paragraphs: a plain one, and a list item with an
    indent level and a numbering id. *)
Definition sample_list : list element :=
  [ Element "w:p" [] None
      [ Element "w:r" [] None [Element "w:t" [] (Some "plain") []] ];
    Element "w:p" [] None
      [ Element "w:pPr" [] None
          [ Element "w:numPr" [] None
              [ Element "w:ilvl" [("w:val", "0")] None [];
                Element "w:numId" [("w:val", "1")] None [] ] ];
        Element "w:r" [] None [Element "w:t" [] (Some "item") []] ] ].

(** ** Deleted text: [CT_R.add_dt], [_DelRunContentAppender], [CT_R.deltext] *)

(** [add_dt(text)]: [_add_dt(text=text)] gives the new [w:delText] its
    text, which lxml may refuse, and puts it at the end, the declaration
    naming no successor; the [xml:space] attribute goes on that child. *)
Definition add_dt (r : element) (txt : string) : result element :=
  rbind (set_text (OxmlElement "w:delText") txt) (fun dt =>
    let r1 := append r dt in
    inr (if (String.length (strip txt) <? String.length txt)%nat
         then CT_R.set_last_child r1 "xml:space" "preserve"
         else r1)).

Module _DelRunContentAppender.

Record appender : Type := Appender { _r : element; _bfr : list ascii }.

Definition init (r : element) : appender := Appender r [].

Definition flush (a : appender) : result appender :=
  let txt := string_of_list_ascii (_bfr a) in
  if String.eqb txt "" then inr (Appender (_r a) [])
  else rbind (add_dt (_r a) txt) (fun r => inr (Appender r [])).

Definition add_char (a : appender) (char : ascii) : result appender :=
  if Ascii.eqb char TAB then
    rbind (flush a) (fun a1 => inr (Appender (CT_R.add_tab (_r a1)) (_bfr a1)))
  else if Ascii.eqb char CR || Ascii.eqb char LF then
    rbind (flush a) (fun a1 => inr (Appender (CT_R.add_br (_r a1)) (_bfr a1)))
  else inr (Appender (_r a) (_bfr a ++ [char])).

Fixpoint add_chars (a : appender) (s : string) : appender * option exn :=
  match s with
  | EmptyString => (a, None)
  | String c s' =>
      match add_char a c with
      | inl e => (a, Some e)
      | inr a1 => add_chars a1 s'
      end
  end.

Definition add_deltext (a : appender) (s : string) : appender * option exn :=
  match add_chars a s with
  | (a1, Some e) => (a1, Some e)
  | (a1, None) =>
      match flush a1 with
      | inl e => (a1, Some e)
      | inr a2 => (a2, None)
      end
  end.

Definition append_to_run_from_text (r : element) (s : string)
  : element * option exn :=
  let '(a, e) := add_deltext (init r) s in (_r a, e).

End _DelRunContentAppender.

(** One step of the loop of the [deltext] getter: what a child adds to
    [text]. *)
Definition deltext_step (acc : string) (child : element) : string :=
  if String.eqb (tag child) "w:delText" then
    (acc ++ match text child with Some t => t | None => "" end)%string
  else if String.eqb (tag child) "w:tab" then (acc ++ String TAB "")%string
  else if String.eqb (tag child) "w:br" || String.eqb (tag child) "w:cr"
       then (acc ++ String LF "")%string
       else acc.

(** The [deltext] getter and setter of [CT_R]. *)
Definition CT_R_deltext (r : element) : string :=
  fold_left deltext_step (children r) "".

Definition CT_R_set_deltext (r : element) (s : string)
  : element * option exn :=
  _DelRunContentAppender.append_to_run_from_text (CT_R.clear_content r) s.

(** A [w:t] as the [w:delText] with the same attributes and text. *)
Definition to_del (e : element) : element :=
  if String.eqb (tag e) "w:t"
  then Element "w:delText" (attrib e) (text e) (children e)
  else e.

(** The tabs and line ends of a text, each line end as a newline. *)
Fixpoint separators (s : string) : string :=
  match s with
  | EmptyString => EmptyString
  | String c s' =>
      if Ascii.eqb c TAB then String TAB (separators s')
      else if Ascii.eqb c CR || Ascii.eqb c LF then String LF (separators s')
      else separators s'
  end.

(** The text equivalent of a child, nothing for a child without one. *)
Definition item_text (e : element) : string :=
  match CT_R.item_str e with
  | Some s => s
  | None => EmptyString
  end.

(** The text equivalent of a child that is not a [w:t]. *)
Definition separator_text (e : element) : string :=
  if String.eqb (tag e) "w:t" then EmptyString else item_text e.

(** A run with properties and deleted text. *)
Definition sample_del_run : element :=
  Element "w:r" [] None
    [ Element "w:rPr" [] None [];
      Element "w:delText" [] (Some "gone") [] ].

(** ** [CT_P]: comment ranges by position, [add_comm], [text], [comment_id] *)

(** [parent.insert(index, new)] on the child list, as lxml has it: before
    the child at [index], counted from the end when [index] is negative,
    and at the end when there is no such child. *)
Definition lxml_insert (index : Z) (new : element) (l : list element)
  : list element :=
  let n := Z.of_nat (length l) in
  if ((0 <=? index) && (index <? n))%Z then
    take (Z.to_nat index) l ++ new :: drop (Z.to_nat index) l
  else if ((index <? 0) && (- n <=? index))%Z then
    take (Z.to_nat (n + index)) l ++ new :: drop (Z.to_nat (n + index)) l
  else l ++ [new].

Definition insert (parent : element) (index : Z) (new : element) : element :=
  with_children parent (lxml_insert index new (children parent)).

(** [OxmlElement(tg)] with its [_id] set: the [w:id] attribute, in
    decimal. *)
Definition marker (tg : string) (id : Z) : element :=
  set (OxmlElement tg) "w:id" (pretty id).

(** [CT_P.link_comment(_id, rangeStart=0, rangeEnd=0)] *)
Definition CT_P_link_comment (p : element) (id rangeStart rangeEnd : Z)
  : element :=
  let rStart := marker "w:commentRangeStart" id in
  let rEnd := marker "w:commentRangeEnd" id in
  if ((rangeStart =? 0) && (rangeEnd =? 0))%Z then
    append (insert p 0 rStart) rEnd
  else
    let p1 := insert p rangeStart rStart in
    if (rangeEnd =? Z.of_nat (length (children p1)) - 1)%Z
    then append p1 rEnd
    else insert p1 (rangeEnd + 1) rEnd.

(** [add_r()] followed by [add_comment_reference(_id)] on the new run:
    [w:r] names no successor in [CT_P], the run goes to the end. *)
Definition add_reference_run (p : element) (id : Z) : element :=
  append p (append (OxmlElement "w:r") (marker "w:commentReference" id)).

Section CT_P.

(** The comments part and the text of a hyperlink are not among the
    sources at hand: the id of the next comment and the [text] of a
    [w:hyperlink] are taken as they come. *)
Variable next_comment_id : list comment -> Z.
Variable Hyperlink_text : element -> string.

(** [CT_P.add_comm]: the comments afterwards, the paragraph afterwards and
    the comment returned. *)
Definition add_comm (p : element) (cs : list comment)
    (author initials dtime comment_text : string) (rangeStart rangeEnd : Z)
  : list comment * element * comment :=
  let c := Comment (next_comment_id cs) author (code_points initials) dtime
             [comment_text] in
  let p1 := add_reference_run p (_id c) in
  (cs ++ [c], CT_P_link_comment p1 (_id c) rangeStart rangeEnd, c).

(** The [text] getter of [CT_P]: the [text] of the children that
    [w:r | w:hyperlink] selects, joined. *)
Definition CT_P_item_text (e : element) : option string :=
  if String.eqb (tag e) "w:r" then Some (CT_R.text e)
  else if String.eqb (tag e) "w:hyperlink" then Some (Hyperlink_text e)
  else None.

Definition CT_P_text (p : element) : string :=
  join (omap CT_P_item_text (children p)).

End CT_P.

(** [CT_P.clear_content]: every child but the [w:pPr] goes. *)
Definition CT_P_clear_content (p : element) : element :=
  with_children p
    (List.filter (fun c => String.eqb (tag c) "w:pPr") (children p)).

(** A paragraph of three runs. *)
Definition sample_paragraph : element :=
  Element "w:p" [] None
    [ Element "w:r" [] None [Element "w:t" [] (Some "a") []];
      Element "w:r" [] None [Element "w:t" [] (Some "b") []];
      Element "w:r" [] None [Element "w:t" [] (Some "c") []] ].

(** The text of a hyperlink, for the samples: that of its runs. *)
Definition sample_Hyperlink_text (h : element) : string :=
  join (map CT_R.text (children h)).

(** ** [int] of a string, [CT_P.comment_id], [CT_R.footnote_id] *)

(** The value of a decimal digit. *)
Definition digit_of (c : ascii) : option Z :=
  let n := nat_of_ascii c in
  if ((48 <=? n) && (n <=? 57))%nat then Some (Z.of_nat (n - 48)) else None.

(** Digits, single underscores allowed between two of them. *)
Fixpoint int_digits (acc : Z) (after_digit : bool) (s : string) : option Z :=
  match s with
  | EmptyString => if after_digit then Some acc else None
  | String c s' =>
      match digit_of c with
      | Some d => int_digits (10 * acc + d) true s'
      | None =>
          if Ascii.eqb c "_" && after_digit then int_digits acc false s'
          else None
      end
  end.

(** [int(s)] for a string: white space around, a sign, digits. [None]
    stands for [ValueError]. *)
Definition py_int (s : string) : option Z :=
  match strip s with
  | EmptyString => None
  | String c t =>
      if Ascii.eqb c "+" then int_digits 0 false t
      else if Ascii.eqb c "-" then option_map Z.opp (int_digits 0 false t)
      else int_digits 0 false (String c t)
  end.

(** [self.xpath("./" + tg + "/@w:id")]: the [w:id] of the children with
    that tag which have one. *)
Definition child_ids (tg : string) (e : element) : list string :=
  omap (fun c => if String.eqb (tag c) tg
                 then get_attr "w:id" (attrib c) else None)
       (children e).

(** [None] unless there is exactly one id, which is read as a number. *)
Definition only_id (ids : list string) : result (option Z) :=
  match ids with
  | [x] => match py_int x with
           | Some z => inr (Some z)
           | None => inl ValueError
           end
  | _ => inr None
  end.

Definition CT_P_comment_id (p : element) : result (option Z) :=
  only_id (child_ids "w:commentRangeStart" p).

Definition CT_R_footnote_id (r : element) : result (option Z) :=
  only_id (child_ids "w:footnoteReference" r).

(** The first child with tag [tg] replaced by its image under [f]: a
    change made to the child that [find] returns. *)
Fixpoint update_first (tg : string) (f : element -> element)
    (l : list element) : list element :=
  match l with
  | [] => []
  | c :: l' => if String.eqb (tag c) tg then f c :: l'
               else c :: update_first tg f l'
  end.

Section FootnoteReference.

(** [rPr.get_or_add_rStyle()] followed by [rstyle.val = v] is code of
    [CT_RPr] ([docx/oxml/text/font.py]), not among the sources at hand:
    the change it makes to the [w:rPr] is taken as it comes. *)
Variable set_rStyle : element -> string -> element.

(** [CT_R.add_footnote_reference(_id)] *)
Definition add_footnote_reference (r : element) (id : Z) : element :=
  let r1 := CT_R.get_or_add_rPr r in
  let r2 := with_children r1
              (update_first "w:rPr"
                 (fun rPr => set_rStyle rPr "FootnoteReference")
                 (children r1)) in
  append r2 (marker "w:footnoteReference" id).

End FootnoteReference.

(** Vocabulary: a text of digits, and its value after [acc]. *)
Fixpoint digits_only (s : string) : bool :=
  match s with
  | EmptyString => true
  | String c s' => is_some (digit_of c) && digits_only s'
  end.

Fixpoint dec_value (acc : Z) (s : string) : Z :=
  match s with
  | EmptyString => acc
  | String c s' =>
      dec_value (10 * acc + match digit_of c with Some d => d | None => 0 end) s'
  end.

Fixpoint no_space (s : string) : bool :=
  match s with
  | EmptyString => true
  | String c s' => negb (isspace c) && no_space s'
  end.

(** A way to set the style of a [w:rPr], for the samples. *)
Definition sample_set_rStyle (rPr : element) (v : string) : element :=
  with_children rPr [set (OxmlElement "w:rStyle") "w:val" v].

(** A tree whose paragraph, element 0, holds the run 1, with a run 2 that
    was made and put nowhere: it is the root element of its document. *)
Definition sample_tree_loose : gmap nat node :=
  <[0 := Node "w:p" [] Root [1]]>
    (<[1 := Node "w:r" [] (Under 0) []]>
       (<[2 := Node "w:r" [] Root []]> ∅)).

(** A tree whose paragraph, element 0, holds the run 1, with a run 2 that
    was taken out of a paragraph. *)
Definition sample_tree_removed : gmap nat node :=
  <[0 := Node "w:p" [] Root [1]]>
    (<[1 := Node "w:r" [] (Under 0) []]>
       (<[2 := Node "w:r" [] (Beside [2]) []]> ∅)).

(** ** Run properties in the store: [get_or_add_rPr], [copy_rpr], the [rpr]
    setters *)

Module Store.

(** [self.find(qn(tg))]: the first child with that tag. *)
Fixpoint find_kid (t : gmap nat node) (tg : string) (l : list nat)
  : option nat :=
  match l with
  | [] => None
  | k :: l' =>
      match t !! k with
      | Some n => if String.eqb (ntag n) tg then Some k else find_kid t tg l'
      | None => find_kid t tg l'
      end
  end.

(** [self.insert(0, new)] *)
Definition insert_first (self new : nat) : M unit :=
  update_tree (fun t =>
    let t1 := detach new t in
    let t2 := alter (fun n => set_kids n (new :: kids n)) self t1 in
    alter (fun n => set_pos n (Under self)) new t2).

(** [get_or_add_rPr()], the new [w:rPr] placed by [_insert_rPr]. *)
Definition get_or_add_rPr (self : nat) : M nat :=
  fun s =>
    match find_kid (tree s) "w:rPr" (kids_of (tree s) self) with
    | Some rPr => (inr rPr, s)
    | None =>
        bind (new_element "w:rPr")
          (fun rPr => bind (insert_first self rPr) (fun _ => ret rPr)) s
    end.





End Store.




(* ===================================================================== *)
(** * Properties *)
(* ===================================================================== *)

(** ** Strings *)

Lemma append_cons (c : ascii) (s t : string) :
  (String c s ++ t)%string = String c (s ++ t)%string.
Proof. reflexivity. Qed.

Lemma append_nil (t : string) : ("" ++ t)%string = t.
Proof. reflexivity. Qed.

Lemma append_empty_r (s : string) : (s ++ "")%string = s.
Proof.
  induction s as [|c s IH]; [reflexivity |].
  now rewrite append_cons, IH.
Qed.

Lemma append_assoc (a b c : string) :
  ((a ++ b) ++ c)%string = (a ++ (b ++ c))%string.
Proof.
  induction a as [|x a IH]; [reflexivity |].
  now rewrite !append_cons, IH.
Qed.

Lemma string_of_list_ascii_snoc (l : list ascii) (c : ascii) :
  string_of_list_ascii (l ++ [c])
  = (string_of_list_ascii l ++ String c "")%string.
Proof.
  induction l as [|x l IH]; [reflexivity |].
  simpl. now rewrite IH, append_cons.
Qed.

Lemma join_app (l1 l2 : list string) :
  join (l1 ++ l2) = (join l1 ++ join l2)%string.
Proof.
  induction l1 as [|x l1 IH]; [reflexivity |].
  unfold join in *. simpl. now rewrite IH, append_assoc.
Qed.

Lemma text_of_app (l1 l2 : list element) :
  text_of (l1 ++ l2) = (text_of l1 ++ text_of l2)%string.
Proof. unfold text_of. now rewrite omap_app, join_app. Qed.

Lemma text_of_cons (e : element) (l : list element) :
  text_of (e :: l)
  = (match CT_R.item_str e with Some s => s | None => "" end ++ text_of l)%string.
Proof.
  unfold text_of. simpl. destruct (CT_R.item_str e); reflexivity.
Qed.

(** ** The appender adds [atoms_from] at the end of the run *)

Lemma set_last_child_snoc (r t : element) (l : list element) (k v : string) :
  children r = l ++ [t] ->
  CT_R.set_last_child r k v = with_children r (l ++ [set t k v]).
Proof.
  intros H. unfold CT_R.set_last_child.
  rewrite H, rev_app_distr. simpl. now rewrite rev_involutive.
Qed.

Lemma add_t_spec (r : element) (txt : string) :
  CT_R.add_t r txt
  = if xml_text txt
    then inr (with_children r (children r ++ [text_atom txt]))
    else inl ValueError.
Proof.
  unfold CT_R.add_t, CT_R._add_t, set_text, text_atom.
  destruct (xml_text txt); [| reflexivity]. cbn [rbind].
  destruct (String.length (strip txt) <? String.length txt)%nat.
  - erewrite set_last_child_snoc by reflexivity. reflexivity.
  - reflexivity.
Qed.

Lemma with_children_id (r : element) : with_children r (children r) = r.
Proof. destruct r; reflexivity. Qed.

Lemma flush_spec (r : element) (bfr : list ascii) :
  _RunContentAppender.flush (_RunContentAppender.Appender r bfr)
  = if xml_text (string_of_list_ascii bfr)
    then inr (_RunContentAppender.Appender
                (with_children r (children r ++ flushed bfr)) [])
    else inl ValueError.
Proof.
  unfold _RunContentAppender.flush.
  cbn [_RunContentAppender._r _RunContentAppender._bfr].
  destruct bfr as [|c bfr].
  - cbn. now rewrite app_nil_r, with_children_id.
  - cbn [string_of_list_ascii String.eqb flushed]. rewrite add_t_spec.
    now destruct (xml_text (String c (string_of_list_ascii bfr))).
Qed.

Lemma add_text_cons (a : _RunContentAppender.appender) (c : ascii)
    (s : string) :
  _RunContentAppender.add_text a (String c s)
  = match _RunContentAppender.add_char a c with
    | inl e => (a, Some e)
    | inr a1 => _RunContentAppender.add_text a1 s
    end.
Proof.
  unfold _RunContentAppender.add_text. cbn [_RunContentAppender.add_chars].
  now destruct (_RunContentAppender.add_char a c).
Qed.

Lemma with_children_nil (r : element) : with_children r (children r ++ []) = r.
Proof. now rewrite app_nil_r, with_children_id. Qed.

(** The run and the exception of [add_text] are those that [written_from]
    tells. *)
Lemma add_text_spec (s : string) :
  forall (r : element) (bfr : list ascii),
    _RunContentAppender._r
      (fst (_RunContentAppender.add_text
              (_RunContentAppender.Appender r bfr) s))
    = with_children r (children r ++ fst (written_from bfr s))
    /\ snd (_RunContentAppender.add_text
              (_RunContentAppender.Appender r bfr) s)
       = snd (written_from bfr s).
Proof.
  induction s as [|c s IH]; intros r bfr.
  - unfold _RunContentAppender.add_text.
    cbn [_RunContentAppender.add_chars written_from]. rewrite flush_spec.
    destruct (xml_text (string_of_list_ascii bfr)); cbn [fst snd].
    + now split.
    + cbn [_RunContentAppender._r]. now rewrite with_children_nil.
  - rewrite add_text_cons. cbn [written_from].
    unfold _RunContentAppender.add_char.
    destruct (Ascii.eqb c TAB).
    + rewrite flush_spec.
      destruct (xml_text (string_of_list_ascii bfr)); cbn [rbind fst snd].
      * cbn [_RunContentAppender._r _RunContentAppender._bfr].
        unfold CT_R.add_tab, append.
        destruct (IH (with_children
                        (with_children r (children r ++ flushed bfr))
                        (children (with_children r (children r ++ flushed bfr))
                         ++ [OxmlElement "w:tab"])) []) as [H1 H2].
        rewrite H1, H2. split; [| reflexivity].
        cbn [children with_children tag attrib text].
        unfold with_children. cbn [tag attrib text].
        now rewrite <- !app_assoc.
      * cbn [_RunContentAppender._r]. now rewrite with_children_nil.
    + destruct (Ascii.eqb c CR || Ascii.eqb c LF).
      * rewrite flush_spec.
        destruct (xml_text (string_of_list_ascii bfr)); cbn [rbind fst snd].
        -- cbn [_RunContentAppender._r _RunContentAppender._bfr].
           unfold CT_R.add_br, append.
           destruct (IH (with_children
                           (with_children r (children r ++ flushed bfr))
                           (children
                              (with_children r (children r ++ flushed bfr))
                            ++ [OxmlElement "w:br"])) []) as [H1 H2].
           rewrite H1, H2. split; [| reflexivity].
           cbn [children with_children tag attrib text].
           unfold with_children. cbn [tag attrib text].
           now rewrite <- !app_assoc.
        -- cbn [_RunContentAppender._r]. now rewrite with_children_nil.
      * cbn [_RunContentAppender._r _RunContentAppender._bfr]. apply IH.
Qed.

Lemma append_to_run_spec (r : element) (s : string) :
  _RunContentAppender.append_to_run_from_text r s
  = (with_children r (children r ++ fst (written_from [] s)),
     snd (written_from [] s)).
Proof.
  unfold _RunContentAppender.append_to_run_from_text, _RunContentAppender.init.
  destruct (add_text_spec s r []) as [H1 H2].
  destruct (_RunContentAppender.add_text (_RunContentAppender.Appender r []) s)
    as [a e].
  cbn [fst snd] in *. now rewrite H1, H2.
Qed.

Lemma encode_spec (s : string) : encode s = fst (written_from [] s).
Proof. unfold encode. now rewrite append_to_run_spec. Qed.

Lemma append_to_run_children (r : element) (s : string) :
  children (fst (_RunContentAppender.append_to_run_from_text r s))
  = children r ++ encode s.
Proof. now rewrite append_to_run_spec, encode_spec. Qed.

(** ** What lxml takes, and what the appender does about it *)

Lemma xml_text_app (s1 s2 : string) :
  xml_text (s1 ++ s2) = xml_text s1 && xml_text s2.
Proof.
  induction s1 as [|c s1 IH]; [reflexivity |].
  rewrite append_cons. cbn [xml_text]. now rewrite IH, andb_assoc.
Qed.

Lemma xml_text_snoc (bfr : list ascii) (c : ascii) :
  xml_text (string_of_list_ascii (bfr ++ [c]))
  = xml_text (string_of_list_ascii bfr) && xml_char c.
Proof.
  rewrite string_of_list_ascii_snoc, xml_text_app. cbn [xml_text].
  now rewrite andb_true_r.
Qed.

(** The appender raises [ValueError] exactly when lxml refuses a character
    of the buffer or of the text. *)
Lemma written_from_raises (s : string) :
  forall bfr : list ascii,
    snd (written_from bfr s)
    = if xml_text (string_of_list_ascii bfr ++ s) then None
      else Some ValueError.
Proof.
  induction s as [|c s IH]; intros bfr; cbn [written_from].
  - rewrite append_empty_r.
    now destruct (xml_text (string_of_list_ascii bfr)).
  - rewrite xml_text_app. cbn [xml_text].
    destruct (Ascii.eqb c TAB) eqn:Etab.
    + apply Ascii.eqb_eq in Etab. subst c.
      destruct (xml_text (string_of_list_ascii bfr)); [| reflexivity].
      cbn [snd]. now rewrite IH.
    + destruct (Ascii.eqb c CR) eqn:Ecr.
      * apply Ascii.eqb_eq in Ecr. subst c. cbn [orb].
        destruct (xml_text (string_of_list_ascii bfr)); [| reflexivity].
        cbn [snd]. now rewrite IH.
      * destruct (Ascii.eqb c LF) eqn:Elf; cbn [orb].
        -- apply Ascii.eqb_eq in Elf. subst c.
           destruct (xml_text (string_of_list_ascii bfr)); [| reflexivity].
           cbn [snd]. now rewrite IH.
        -- rewrite IH, string_of_list_ascii_snoc, append_assoc, xml_text_app.
           reflexivity.
Qed.

(** When lxml takes every character, the appender adds [atoms_from]. *)
Lemma written_from_xml (s : string) :
  forall bfr : list ascii,
    xml_text (string_of_list_ascii bfr) = true -> xml_text s = true ->
    written_from bfr s = (atoms_from bfr s, None).
Proof.
  induction s as [|c s IH]; intros bfr Hb Hs; cbn [written_from atoms_from].
  - now rewrite Hb.
  - cbn [xml_text] in Hs. apply andb_true_iff in Hs as [Hc Hs].
    rewrite Hb.
    destruct (Ascii.eqb c TAB); [now rewrite (IH [] eq_refl Hs) |].
    destruct (Ascii.eqb c CR || Ascii.eqb c LF);
      [now rewrite (IH [] eq_refl Hs) |].
    apply IH; [| exact Hs]. now rewrite xml_text_snoc, Hb, Hc.
Qed.

Lemma encode_xml (s : string) :
  xml_text s = true -> encode s = atoms_from [] s.
Proof.
  intros Hs. now rewrite encode_spec, (written_from_xml s [] eq_refl Hs).
Qed.

Lemma append_to_run_raises (r : element) (s : string) :
  snd (_RunContentAppender.append_to_run_from_text r s)
  = if xml_text s then None else Some ValueError.
Proof. now rewrite append_to_run_spec, written_from_raises. Qed.

Lemma codec_char_xml (c : ascii) :
  isprintable c || Ascii.eqb c TAB || Ascii.eqb c LF = true ->
  xml_char c = true.
Proof.
  destruct c as [[] [] [] [] [] [] [] []]; vm_compute; congruence.
Qed.

Lemma codec_text_xml (s : string) : codec_text s = true -> xml_text s = true.
Proof.
  induction s as [|c s IH]; [reflexivity |].
  cbn [codec_text xml_text]. intros H. apply andb_true_iff in H as [Hc Hs].
  now rewrite (codec_char_xml c Hc), (IH Hs).
Qed.

(** ** The text equivalent of what the appender adds *)

Lemma text_of_flushed (bfr : list ascii) :
  text_of (flushed bfr) = string_of_list_ascii bfr.
Proof.
  destruct bfr as [|c bfr]; [reflexivity |].
  unfold flushed. rewrite text_of_cons. cbn [CT_R.item_str text_atom tag].
  cbn. now rewrite append_empty_r.
Qed.

Lemma text_of_atoms_from (s : string) :
  forall bfr : list ascii,
    text_of (atoms_from bfr s)
    = (string_of_list_ascii bfr ++ cr_to_lf s)%string.
Proof.
  induction s as [|c s IH]; intros bfr.
  - simpl. now rewrite text_of_flushed, append_empty_r.
  - cbn [atoms_from cr_to_lf].
    destruct (Ascii.eqb c TAB) eqn:Etab.
    + apply Ascii.eqb_eq in Etab. subst c.
      rewrite text_of_app, text_of_flushed, text_of_cons, IH. reflexivity.
    + destruct (Ascii.eqb c CR) eqn:Ecr.
      * cbn [orb]. rewrite text_of_app, text_of_flushed, text_of_cons, IH.
        reflexivity.
      * destruct (Ascii.eqb c LF) eqn:Elf; cbn [orb].
        -- apply Ascii.eqb_eq in Elf. subst c.
           rewrite text_of_app, text_of_flushed, text_of_cons, IH.
           reflexivity.
        -- rewrite IH, string_of_list_ascii_snoc, append_assoc.
           reflexivity.
Qed.

Lemma text_of_encode (s : string) :
  xml_text s = true -> text_of (encode s) = cr_to_lf s.
Proof. intros Hs. now rewrite encode_xml, text_of_atoms_from. Qed.

Lemma cr_to_lf_codec_text (s : string) :
  codec_text s = true -> cr_to_lf s = s.
Proof.
  induction s as [|c s IH]; [reflexivity |].
  simpl. intros H. apply andb_true_iff in H as [Hc Hs].
  rewrite (IH Hs). destruct (Ascii.eqb c CR) eqn:Ecr; [| reflexivity].
  apply Ascii.eqb_eq in Ecr. subst c. discriminate Hc.
Qed.

(** ** Clearing a run *)

Lemma no_rPr_filter (l : list element) :
  forallb (fun c => negb (is_rPr c)) l = true ->
  List.filter is_rPr l = [] /\ List.find is_rPr l = None.
Proof.
  induction l as [|c l IH]; simpl; [now split |].
  intros H. apply andb_true_iff in H as [Hc Hl].
  destruct (is_rPr c); [discriminate | now apply IH].
Qed.

Lemma clear_content_children (r : element) :
  rPr_leading r = true ->
  children (CT_R.clear_content r) = List.filter is_rPr (children r).
Proof.
  unfold rPr_leading, CT_R.clear_content, find.
  destruct r as [tg at' tx cs]. simpl.
  destruct cs as [|c cs]; simpl; [reflexivity |].
  intros H. destruct (no_rPr_filter cs H) as [Hf Hn].
  fold (is_rPr c). destruct (is_rPr c); simpl.
  - now rewrite Hf.
  - change (fun c0 : element => String.eqb (tag c0) "w:rPr") with is_rPr.
    now rewrite Hn, Hf.
Qed.

Lemma text_of_rPr (l : list element) : text_of (List.filter is_rPr l) = "".
Proof.
  induction l as [|c l IH]; [reflexivity |].
  simpl. destruct (is_rPr c) eqn:E; [| exact IH].
  rewrite text_of_cons, IH. unfold CT_R.item_str.
  unfold is_rPr in E. apply String.eqb_eq in E. rewrite E. reflexivity.
Qed.

Lemma set_text_children (r : element) (s : string) :
  children (fst (CT_R_set_text r s))
  = children (CT_R.clear_content r) ++ encode s.
Proof. unfold CT_R_set_text. apply append_to_run_children. Qed.

Lemma set_text_raises (r : element) (s : string) :
  snd (CT_R_set_text r s) = if xml_text s then None else Some ValueError.
Proof. unfold CT_R_set_text. apply append_to_run_raises. Qed.

Lemma text_is_text_of (r : element) : CT_R.text r = text_of (children r).
Proof. reflexivity. Qed.

(** Whatever the run was, when lxml takes the text, the text read back is
    the text of what the clearing left, followed by the text set, its
    carriage returns read as newlines. *)
Lemma text_after_set_text (r : element) (s : string) :
  xml_text s = true ->
  CT_R.text (fst (CT_R_set_text r s))
  = (CT_R.text (CT_R.clear_content r) ++ cr_to_lf s)%string.
Proof.
  intros Hs.
  now rewrite !text_is_text_of, set_text_children, text_of_app, text_of_encode.
Qed.

(** C1. For a text of printable characters, tabs and newlines, the
    appender raises nothing and the text equivalent of the content it
    produces is the text itself; so setting the text of a run to it
    returns, and reading the text of the run gives it back. *)
Theorem C1_round_trip (s : string) :
  codec_text s = true ->
  text_of (encode s) = s
  /\ snd (_RunContentAppender.append_to_run_from_text (OxmlElement "w:r") s)
     = None
  /\ forall r : element,
       rPr_leading r = true ->
       snd (CT_R_set_text r s) = None
       /\ CT_R.text (fst (CT_R_set_text r s)) = s.
Proof.
  intros Hs. pose proof (codec_text_xml s Hs) as Hx.
  split; [| split].
  - now rewrite text_of_encode, cr_to_lf_codec_text.
  - now rewrite append_to_run_raises, Hx.
  - intros r Hr. split; [now rewrite set_text_raises, Hx |].
    rewrite text_after_set_text, text_is_text_of, clear_content_children
      by assumption.
    now rewrite text_of_rPr, cr_to_lf_codec_text.
Qed.

Lemma C1_round_trip_witness :
  text_of (encode sample_text) = sample_text
  /\ CT_R_set_text sample_run sample_text
     = (fst (CT_R_set_text sample_run sample_text), None)
  /\ CT_R.text (fst (CT_R_set_text sample_run sample_text)) = sample_text.
Proof.
  destruct (C1_round_trip sample_text eq_refl) as (H1 & _ & H2).
  destruct (H2 sample_run eq_refl) as [H3 H4].
  split; [exact H1 |]. split; [| exact H4].
  rewrite <- H3. now destruct (CT_R_set_text sample_run sample_text).
Defined.

(** ** What the appender never adds *)

(** Whatever holds of every [w:t] with a text, of [w:tab] and of [w:br]
    holds of all that the appender has added, also when it raises. *)
Lemma written_from_Forall (P : element -> Prop) :
  (forall txt : string, txt <> EmptyString -> P (text_atom txt)) ->
  P tab_atom -> P br_atom ->
  forall (s : string) (bfr : list ascii), Forall P (fst (written_from bfr s)).
Proof.
  intros Ht Htab Hbr.
  assert (Hfl : forall bfr, Forall P (flushed bfr)).
  { intros [|c bfr]; constructor; [| constructor].
    apply Ht. discriminate. }
  induction s as [|c s IH]; intros bfr; cbn [written_from].
  - destruct (xml_text (string_of_list_ascii bfr)); [apply Hfl | constructor].
  - destruct (Ascii.eqb c TAB).
    + destruct (xml_text (string_of_list_ascii bfr)); [| constructor].
      apply Forall_app.
      split; [apply Hfl | constructor; [exact Htab | apply IH]].
    + destruct (Ascii.eqb c CR || Ascii.eqb c LF).
      * destruct (xml_text (string_of_list_ascii bfr)); [| constructor].
        apply Forall_app.
        split; [apply Hfl | constructor; [exact Hbr | apply IH]].
      * apply IH.
Qed.

Lemma encode_Forall (P : element -> Prop) (s : string) :
  (forall txt : string, txt <> EmptyString -> P (text_atom txt)) ->
  P tab_atom -> P br_atom -> Forall P (encode s).
Proof.
  intros Ht Htab Hbr. rewrite encode_spec.
  now apply written_from_Forall.
Qed.

Lemma encode_no_rPr (s : string) :
  forallb (fun c => negb (is_rPr c)) (encode s) = true.
Proof.
  apply forallb_forall. apply List.Forall_forall.
  apply encode_Forall; intros; reflexivity.
Qed.

(** On a run whose [w:rPr], if it has one, is its first child, setting
    the text removes every child of the run but the [w:rPr]: the clearing
    keeps exactly the [w:rPr] and the new content follows it, also when
    the setter raises. *)
Theorem set_text_keeps_leading_rPr (r : element) (s : string) :
  rPr_leading r = true ->
  children (CT_R.clear_content r) = List.filter is_rPr (children r)
  /\ children (fst (CT_R_set_text r s))
     = List.filter is_rPr (children r) ++ encode s
  /\ forallb (fun c => negb (is_rPr c)) (encode s) = true
  /\ find "w:rPr" (fst (CT_R_set_text r s)) = find "w:rPr" r.
Proof.
  intros Hr.
  pose proof (clear_content_children r Hr) as Hc.
  split; [exact Hc |].
  split; [now rewrite set_text_children, Hc |].
  split; [apply encode_no_rPr |].
  unfold find. rewrite set_text_children, Hc.
  change (fun c : element => String.eqb (tag c) "w:rPr") with is_rPr.
  unfold rPr_leading in Hr.
  destruct (children r) as [|c cs]; simpl in *.
  - destruct (no_rPr_filter _ (encode_no_rPr s)) as [_ Hn]. exact Hn.
  - destruct (no_rPr_filter cs Hr) as [Hf Hn].
    destruct (is_rPr c) eqn:E; simpl; rewrite ?E; [reflexivity |].
    rewrite Hf, Hn. simpl.
    destruct (no_rPr_filter _ (encode_no_rPr s)) as [_ Hn']. exact Hn'.
Qed.

Lemma set_text_keeps_leading_rPr_witness :
  children (CT_R.clear_content sample_run)
  = [Element "w:rPr" [] None [Element "w:b" [] None []]]
  /\ children (fst (CT_R_set_text sample_run "x"))
     = [Element "w:rPr" [] None [Element "w:b" [] None []];
        Element "w:t" [] (Some "x") []].
Proof.
  destruct (set_text_keeps_leading_rPr sample_run "x" eq_refl)
    as (H1 & H2 & _).
  split; [exact H1 | exact H2].
Defined.

(** C7. The appender adds no [w:t] without characters: a flush of an empty
    buffer adds nothing, and the empty text gives no content at all. *)
Theorem C7_no_empty_text_atom :
  (forall (s : string) (e : element),
      In e (encode s) -> tag e = "w:t" ->
      exists txt, text e = Some txt /\ txt <> EmptyString)
  /\ (forall r : element,
         _RunContentAppender.flush (_RunContentAppender.Appender r [])
         = inr (_RunContentAppender.Appender r []))
  /\ encode "" = [].
Proof.
  split; [| split].
  - intros s.
    assert (H : Forall (fun e => tag e = "w:t" ->
                          exists txt, text e = Some txt /\ txt <> EmptyString)
                       (encode s)).
    { apply encode_Forall.
      - intros txt Htxt _. exists txt. split; [reflexivity | exact Htxt].
      - discriminate.
      - discriminate. }
    intros e He. exact (proj1 (List.Forall_forall _ _) H e He).
  - intros r. rewrite flush_spec. cbn.
    now rewrite app_nil_r, with_children_id.
  - reflexivity.
Qed.

(** ** Tabs and line breaks cut the input *)

(** The appender at a line end, when lxml takes the text before it. *)
Lemma written_from_break (c : ascii) (s1 s2 : string) :
  Ascii.eqb c TAB = false ->
  Ascii.eqb c CR || Ascii.eqb c LF = true ->
  forall bfr : list ascii,
    xml_text (string_of_list_ascii bfr) = true -> xml_text s1 = true ->
    fst (written_from bfr (s1 ++ String c s2))
    = atoms_from bfr s1 ++ br_atom :: fst (written_from [] s2).
Proof.
  intros Htab Hbr.
  induction s1 as [|x s1 IH]; intros bfr Hb Hs.
  - rewrite append_nil. cbn [written_from atoms_from].
    now rewrite Htab, Hbr, Hb.
  - rewrite append_cons. cbn [written_from atoms_from].
    cbn [xml_text] in Hs. apply andb_true_iff in Hs as [Hx Hs].
    rewrite Hb.
    destruct (Ascii.eqb x TAB).
    + cbn [fst]. now rewrite (IH [] eq_refl Hs), <- app_assoc.
    + destruct (Ascii.eqb x CR || Ascii.eqb x LF).
      * cbn [fst]. now rewrite (IH [] eq_refl Hs), <- app_assoc.
      * apply IH; [| exact Hs]. now rewrite xml_text_snoc, Hb, Hx.
Qed.

(** C6, as the code has it. A carriage return followed by a newline gives
    two [w:br] in a row, between the content of what precedes the pair and
    the content of what follows it, when lxml takes the text that precedes
    the pair. *)
Theorem C6_crlf_two_breaks (r : element) (s1 s2 : string) :
  xml_text s1 = true ->
  children (fst (_RunContentAppender.append_to_run_from_text r
                   (s1 ++ String CR (String LF s2))))
  = children (fst (_RunContentAppender.append_to_run_from_text r s1))
    ++ [br_atom; br_atom] ++ encode s2.
Proof.
  intros Hs. rewrite !append_to_run_children, !encode_spec.
  rewrite written_from_break by (reflexivity || assumption).
  change (String LF s2) with ("" ++ String LF s2)%string.
  rewrite written_from_break by reflexivity.
  rewrite (written_from_xml s1 [] eq_refl Hs). cbn [fst atoms_from flushed].
  now rewrite <- app_assoc.
Qed.

Lemma C6_crlf_two_breaks_witness :
  children (fst (_RunContentAppender.append_to_run_from_text sample_run
                   ("a" ++ String CR (String LF "b"))))
  = children (fst (_RunContentAppender.append_to_run_from_text sample_run "a"))
    ++ [br_atom; br_atom] ++ encode "b".
Proof. exact (C6_crlf_two_breaks sample_run "a" "b" eq_refl). Defined.

(** C6, as the specification words it, fails: with a form feed before the
    pair the first flush raises [ValueError], and the run has no [w:br],
    nor anything else of the text. *)
Lemma C6_form_feed_counterexample :
  _RunContentAppender.append_to_run_from_text (OxmlElement "w:r")
    (form_feed ++ String CR (String LF ""))
  = (OxmlElement "w:r", Some ValueError)
  /\ children (fst (_RunContentAppender.append_to_run_from_text
                      (OxmlElement "w:r")
                      (form_feed ++ String CR (String LF ""))))
     <> children (fst (_RunContentAppender.append_to_run_from_text
                         (OxmlElement "w:r") form_feed))
        ++ [br_atom; br_atom] ++ encode "".
Proof. split; [reflexivity | discriminate]. Qed.

Lemma C7_no_empty_text_atom_witness :
  exists txt, text (Element "w:t" [] (Some "ab") []) = Some txt
              /\ txt <> EmptyString.
Proof.
  apply (proj1 C7_no_empty_text_atom (String "a" (String "b" (String TAB "")))).
  - simpl. left. reflexivity.
  - reflexivity.
Defined.

(** ** [strip] shortens a text exactly when it starts or ends in a space *)

Lemma length_lstrip_le (s : string) :
  String.length (lstrip s) <= String.length s.
Proof.
  induction s as [|c s IH]; simpl; [lia |].
  destruct (isspace c); simpl; lia.
Qed.

Lemma lstrip_shorter (s : string) :
  String.length (lstrip s) < String.length s <-> first_is_space s = true.
Proof.
  destruct s as [|c s]; simpl.
  - split; [lia | discriminate].
  - pose proof (length_lstrip_le s).
    destruct (isspace c); simpl; split; intros; try lia; try discriminate;
      reflexivity.
Qed.

Lemma last_char_cons (c : ascii) (s : string) :
  s <> EmptyString -> last_char (String c s) = last_char s.
Proof. destruct s; [congruence | reflexivity]. Qed.

Lemma length_rstrip_le (s : string) :
  String.length (rstrip s) <= String.length s.
Proof.
  induction s as [|c s IH]; simpl; [lia |].
  destruct (rstrip s); [destruct (isspace c) |]; simpl in *; lia.
Qed.

Lemma rstrip_shorter (s : string) :
  String.length (rstrip s) < String.length s <-> last_is_space s = true.
Proof.
  unfold last_is_space.
  induction s as [|c s IH]; [simpl; split; [lia | discriminate] |].
  destruct s as [|d s'].
  - simpl. destruct (isspace c); simpl; split; intros; try lia;
      try discriminate; reflexivity.
  - rewrite last_char_cons by discriminate.
    remember (String d s') as s eqn:Es.
    assert (Hlen : 0 < String.length s) by (subst s; simpl; lia).
    cbn [rstrip]. destruct (rstrip s) as [|x t] eqn:Er.
    + assert (Hsp : match last_char s with
                    | Some c0 => isspace c0
                    | None => false
                    end = true).
      { apply IH. simpl. lia. }
      rewrite Hsp. destruct (isspace c); simpl; split; intros; try lia;
        reflexivity.
    + cbn [String.length]. rewrite <- IH. cbn [String.length]. lia.
Qed.

Lemma rstrip_fixed (s : string) :
  last_is_space s = false -> rstrip s = s.
Proof.
  intros H.
  assert (Hl : String.length (rstrip s) = String.length s).
  { pose proof (length_rstrip_le s). pose proof (rstrip_shorter s) as Hs.
    destruct (Nat.eq_dec (String.length (rstrip s)) (String.length s));
      [assumption |].
    assert (last_is_space s = true) by (apply Hs; lia). congruence. }
  clear H. induction s as [|c s IH]; [reflexivity |].
  cbn [rstrip] in *. pose proof (length_rstrip_le s) as Hle.
  destruct (rstrip s) as [|x t] eqn:Er.
  - destruct (isspace c); simpl in Hl; [discriminate |].
    destruct s; [reflexivity | simpl in Hl; discriminate].
  - f_equal. apply IH. cbn [String.length] in *. lia.
Qed.

Lemma strip_shorter (s : string) :
  (String.length (strip s) <? String.length s)%nat
  = leading_or_trailing_space s.
Proof.
  unfold leading_or_trailing_space, strip.
  pose proof (length_lstrip_le (rstrip s)) as H1.
  pose proof (length_rstrip_le s) as H2.
  destruct (last_is_space s) eqn:El.
  - rewrite orb_true_r. apply Nat.ltb_lt.
    apply rstrip_shorter in El. lia.
  - rewrite orb_false_r, (rstrip_fixed s El).
    destruct (first_is_space s) eqn:Ef.
    + apply Nat.ltb_lt. now apply lstrip_shorter.
    + apply Nat.ltb_ge.
      destruct (Nat.lt_ge_cases (String.length (lstrip s)) (String.length s))
        as [Hlt | Hge]; [| exact Hge].
      apply lstrip_shorter in Hlt. congruence.
Qed.

Lemma preserve_whitespace_text_atom (txt : string) :
  preserve_whitespace (text_atom txt) = leading_or_trailing_space txt.
Proof.
  rewrite <- strip_shorter. unfold preserve_whitespace, text_atom.
  destruct (String.length (strip txt) <? String.length txt)%nat; reflexivity.
Qed.

(** C5. Every [w:t] that the appender adds keeps its white space exactly
    when its text starts or ends in white space; [" a "] gives one [w:t]
    that keeps it, ["a"] one that does not. *)
Theorem C5_preserve_whitespace :
  (forall (s : string) (e : element),
      In e (encode s) -> tag e = "w:t" ->
      exists txt, text e = Some txt
                  /\ preserve_whitespace e = leading_or_trailing_space txt)
  /\ encode " a "
     = [Element "w:t" [("xml:space", "preserve")] (Some " a ") []]
  /\ encode "a" = [Element "w:t" [] (Some "a") []].
Proof.
  split; [| split; reflexivity].
  intros s.
  assert (H : Forall (fun e => tag e = "w:t" ->
                        exists txt, text e = Some txt
                          /\ preserve_whitespace e
                             = leading_or_trailing_space txt)
                     (encode s)).
  { apply encode_Forall.
    - intros txt _ _. exists txt.
      split; [reflexivity | apply preserve_whitespace_text_atom].
    - discriminate.
    - discriminate. }
  intros e He. exact (proj1 (List.Forall_forall _ _) H e He).
Qed.

Lemma C5_preserve_whitespace_witness :
  exists txt,
    text (Element "w:t" [("xml:space", "preserve")] (Some "a ") []) = Some txt
    /\ preserve_whitespace
         (Element "w:t" [("xml:space", "preserve")] (Some "a ") [])
       = leading_or_trailing_space txt.
Proof.
  apply (proj1 C5_preserve_whitespace (String "a" (String " " (String TAB "b")))).
  - simpl. left. reflexivity.
  - reflexivity.
Defined.

(** ** Breaks in the text of a run *)

Lemma text_around (r : element) (l1 l2 : list element) (e : element)
    (c : inner_class) :
  children r = l1 ++ e :: l2 ->
  class_of_tag (tag e) = Some c ->
  CT_R.text r = (text_of l1 ++ str c e ++ text_of l2)%string.
Proof.
  intros Hc He.
  rewrite text_is_text_of, Hc, text_of_app, text_of_cons.
  unfold CT_R.item_str. now rewrite He.
Qed.

(** C10. In the text of a run a [w:br] stands for a newline when its
    [w:type] is absent or [textWrapping] and for nothing with any other
    type, page and column among them; a [w:cr] stands for a newline. *)
Theorem C10_break_text (r : element) (l1 l2 : list element) (e : element) :
  children r = l1 ++ e :: l2 ->
  (tag e = "w:br" ->
   (get_attr "w:type" (attrib e) = None
    \/ get_attr "w:type" (attrib e) = Some "textWrapping" ->
    CT_R.text r = (text_of l1 ++ String LF "" ++ text_of l2)%string)
   /\ (forall v, get_attr "w:type" (attrib e) = Some v ->
                 v <> "textWrapping" ->
                 CT_R.text r = (text_of l1 ++ text_of l2)%string))
  /\ (tag e = "w:cr" ->
      CT_R.text r = (text_of l1 ++ String LF "" ++ text_of l2)%string).
Proof.
  intros Hc. split.
  - intros Ht.
    assert (Hcl : class_of_tag (tag e) = Some CT_Br) by now rewrite Ht.
    rewrite (text_around r l1 l2 e CT_Br Hc Hcl).
    unfold str, br_type. split.
    + intros [H | H]; rewrite H; reflexivity.
    + intros v Hv Hne. rewrite Hv.
      destruct (String.eqb v "textWrapping") eqn:E.
      * apply String.eqb_eq in E. contradiction.
      * reflexivity.
  - intros Ht.
    assert (Hcl : class_of_tag (tag e) = Some CT_Cr) by now rewrite Ht.
    now rewrite (text_around r l1 l2 e CT_Cr Hc Hcl).
Qed.

Lemma C10_break_text_witness :
  CT_R.text sample_breaks = String "a" (String "b" (String LF "c")).
Proof.
  destruct (C10_break_text sample_breaks
              [Element "w:t" [] (Some "a") []]
              [Element "w:t" [] (Some "b") [];
               Element "w:br" [] None [];
               Element "w:t" [] (Some "c") []]
              (Element "w:br" [("w:type", "page")] None [])
              eq_refl) as [Hbr _].
  destruct (Hbr eq_refl) as [_ Hother].
  apply (Hother "page"); [reflexivity | discriminate].
Defined.

(** ** Initials *)

Lemma split_space_not_nil (s : string) : split_space s <> [].
Proof.
  induction s as [|c s IH]; simpl; [discriminate |].
  destruct (Ascii.eqb c SPACE); [discriminate |].
  destruct (split_space s); discriminate.
Qed.

(** The pieces of [split(" ")], joined by single spaces, are the text. *)
Lemma join_split_space (s : string) : join_sep " " (split_space s) = s.
Proof.
  induction s as [|c s IH]; [reflexivity |].
  cbn [split_space]. pose proof (split_space_not_nil s) as Hne.
  destruct (Ascii.eqb c SPACE) eqn:E.
  - apply Ascii.eqb_eq in E. subst c.
    destruct (split_space s) as [|t ts]; [congruence |].
    change (join_sep " " ("" :: t :: ts))
      with ("" ++ " " ++ join_sep " " (t :: ts))%string.
    now rewrite IH.
  - destruct (split_space s) as [|t ts]; [congruence |].
    rewrite <- IH. destruct ts; reflexivity.
Qed.

(** No piece of [split(" ")] holds a space. *)
Lemma split_space_no_space (s : string) :
  Forall (fun t => has_char SPACE t = false) (split_space s).
Proof.
  induction s as [|c s IH]; [repeat constructor |].
  cbn [split_space]. pose proof (split_space_not_nil s) as Hne.
  destruct (Ascii.eqb c SPACE) eqn:E.
  - constructor; [reflexivity | exact IH].
  - destruct (split_space s) as [|t ts]; [congruence |].
    inversion IH as [|? ? Ht Hts]; subst.
    constructor; [| exact Hts].
    cbn [has_char]. now rewrite E, Ht.
Qed.

Lemma rmap_first_char (ts : list string) :
  forallb nonempty ts = true ->
  rmap first_char ts = inr (heads ts).
Proof.
  induction ts as [|t ts IH]; [reflexivity |].
  simpl. intros H. apply andb_true_iff in H as [Ht Hts].
  destruct t as [|c t]; [discriminate |].
  simpl. rewrite (IH Hts). reflexivity.
Qed.

Lemma rmap_first_char_empty (ts : list string) :
  forallb nonempty ts = false ->
  rmap first_char ts = inl IndexError.
Proof.
  induction ts as [|t ts IH]; [discriminate |].
  simpl. destruct t as [|c t]; [reflexivity |].
  simpl. intros H. rewrite (IH H). reflexivity.
Qed.

(** C8, as the code has it. Without [initials] given, the initials are the
    upper-case letters of [author]; when there is none, [author] is cut at
    every single space and, no piece being empty, the initials are the
    first characters of the pieces, joined and put in upper case. *)
Theorem C8_initials (author : string) :
  (upper author <> EmptyString ->
   derive_initials author None
   = inr (code_points (filter_chars isupper author)))
  /\ (upper author = EmptyString ->
      forallb nonempty (split_space author) = true ->
      derive_initials author None
      = inr (str_upper (string_of_list_ascii (heads (split_space author)))))
  /\ join_sep " " (split_space author) = author
  /\ Forall (fun t => has_char SPACE t = false) (split_space author)
  /\ derive_initials "Ryan Mannion" None = inr (code_points "RM")
  /\ derive_initials "BlackBoiler" None = inr (code_points "BB")
  /\ derive_initials "ryan mannion" None = inr (code_points "RM").
Proof.
  split; [| split; [| split; [| split; [| repeat split]]]].
  - intros H. unfold derive_initials.
    destruct (String.eqb (upper author) "") eqn:E; [| reflexivity].
    apply String.eqb_eq in E. contradiction.
  - intros Hu Hne. unfold derive_initials, splitter.
    rewrite Hu. cbn [String.eqb]. now rewrite (rmap_first_char _ Hne).
  - apply join_split_space.
  - apply split_space_no_space.
Qed.

Lemma C8_initials_witness :
  derive_initials "john ronald reuel tolkien" None
  = inr (code_points "JRRT").
Proof.
  apply (proj1 (proj2 (C8_initials "john ronald reuel tolkien")));
    reflexivity.
Defined.

(** C8, as the specification words it, fails: a tab separates two tokens
    but [split(" ")] does not cut there, and two spaces in a row give an
    empty piece, whose first character does not exist. *)
Lemma C8_whitespace_tokens_counterexample :
  derive_initials ryan_tab_mannion None = inr (code_points "R")
  /\ spec_deriveInitials ryan_tab_mannion = code_points "RM"
  /\ derive_initials ryan_two_spaces_mannion None = inl IndexError
  /\ spec_deriveInitials ryan_two_spaces_mannion = code_points "RM".
Proof. repeat split; reflexivity. Qed.

(** ** List markers *)

Lemma para_num_group_ok (par : element) :
  lookup_fails_in par = false ->
  exists g, para_num_group (xpath_descendants "w:numPr" par) = inr g.
Proof.
  unfold lookup_fails_in, para_num_group.
  destruct (xpath_descendants "w:numPr" par) as [|p0 ps]; [now eexists |].
  destruct (get "w:numId" p0) as [e1 | numId]; [discriminate |].
  destruct (get "w:ilvl" p0) as [e2 | ilvl]; [discriminate |].
  intros _. simpl. now eexists.
Qed.

Lemma para_num_group_fails (par : element) :
  lookup_fails_in par = true ->
  exists e, para_num_group (xpath_descendants "w:numPr" par) = inl e.
Proof.
  unfold lookup_fails_in, para_num_group.
  destruct (xpath_descendants "w:numPr" par) as [|p0 ps]; [discriminate |].
  destruct (get "w:numId" p0) as [e1 | numId]; [intros _; now exists e1 |].
  destruct (get "w:ilvl" p0) as [e2 | ilvl]; [intros _; now exists e2 |].
  discriminate.
Qed.

(** The lookups as a whole raise as soon as one of them fails. *)
Lemma lookups_raise (paragraphs : list element) :
  lookup_fails paragraphs = true ->
  exists e,
    rmap para_num_group (map (xpath_descendants "w:numPr") paragraphs) = inl e.
Proof.
  unfold lookup_fails.
  induction paragraphs as [|par rest IH]; [discriminate |].
  cbn [existsb map rmap]. intros H.
  destruct (lookup_fails_in par) eqn:E.
  - destruct (para_num_group_fails par E) as [e He].
    exists e. now rewrite He.
  - destruct (para_num_group_ok par E) as [g Hg]. rewrite Hg.
    destruct (IH H) as [e He]. exists e. cbn [rbind]. now rewrite He.
Qed.

(** C9. When a lookup of [fudge_list_markers] fails, the method returns
    without an exception and the paragraphs, their texts with them, are as
    they were. *)
Theorem C9_fudge_aborts_silently
    (Paragraph_text : element -> string)
    (Paragraph_set_text : element -> string -> element)
    (paragraphs : list element) :
  lookup_fails paragraphs = true ->
  fudge_list_markers Paragraph_text Paragraph_set_text paragraphs
  = (paragraphs, None)
  /\ map Paragraph_text
       (fst (fudge_list_markers Paragraph_text Paragraph_set_text paragraphs))
     = map Paragraph_text paragraphs.
Proof.
  intros H. destruct (lookups_raise paragraphs H) as [e He].
  unfold fudge_list_markers. rewrite He. split; reflexivity.
Qed.

Lemma C9_fudge_aborts_silently_witness :
  fudge_list_markers sample_Paragraph_text sample_Paragraph_set_text
    sample_paragraphs
  = (sample_paragraphs, None).
Proof.
  apply (C9_fudge_aborts_silently sample_Paragraph_text
           sample_Paragraph_set_text sample_paragraphs).
  reflexivity.
Defined.

(** ** Elements of the store: one step at a time *)

Lemma insert_before_spec (x new : nat) (pre post : list nat) :
  x ∉ pre ->
  insert_before x new (pre ++ x :: post) = pre ++ new :: x :: post.
Proof.
  induction pre as [|y pre IH]; intros H; simpl.
  - now rewrite decide_True.
  - apply not_elem_of_cons in H as [Hxy Hpre].
    rewrite decide_False by congruence. now rewrite IH.
Qed.

Lemma insert_after_spec (x new : nat) (pre post : list nat) :
  x ∉ pre ->
  insert_after x new (pre ++ x :: post) = pre ++ x :: new :: post.
Proof.
  induction pre as [|y pre IH]; intros H; simpl.
  - now rewrite decide_True.
  - apply not_elem_of_cons in H as [Hxy Hpre].
    rewrite decide_False by congruence. now rewrite IH.
Qed.

Lemma fresh_lookup (t : gmap nat node) : t !! fresh (dom t) = None.
Proof. apply not_elem_of_dom, is_fresh. Qed.

Lemma fresh_ne (t : gmap nat node) (j : nat) :
  is_Some (t !! j) -> j <> fresh (dom t).
Proof.
  intros [n Hn] ->. rewrite fresh_lookup in Hn. discriminate.
Qed.

Lemma run_bind {A B} (m : M A) (k : A -> M B) (s s' : state) (a : A) :
  m s = (inr a, s') -> bind m k s = k a s'.
Proof. intros H. unfold bind. now rewrite H. Qed.

Lemma run_new_element (tg : string) (t : gmap nat node) (cs : list comment) :
  new_element tg (State t cs)
  = (inr (fresh (dom t)),
     State (<[fresh (dom t) := Node tg [] Root []]> t) cs).
Proof. reflexivity. Qed.

Lemma run_set_id (i : nat) (v : Z) (n : node) (t : gmap nat node)
    (cs : list comment) :
  t !! i = Some n ->
  set_id i v (State t cs)
  = (inr tt, State (<[i := set_nattrib n "w:id" (pretty v)]> t) cs).
Proof.
  intros H. unfold set_id, update_tree. simpl.
  now rewrite (alter_alt_Some _ _ _ _ H).
Qed.

Lemma pos_of_Some (t : gmap nat node) (i : nat) (n : node) :
  t !! i = Some n -> pos_of t i = Some (pos n).
Proof. intros H. unfold pos_of. now rewrite H. Qed.

(** The root element of a document leaves nothing behind when it moves. *)
Lemma detach_unlinked (i : nat) (n : node) (t : gmap nat node) :
  t !! i = Some n -> pos n = Root -> detach i t = t.
Proof.
  intros H Hp. unfold detach. now rewrite (pos_of_Some t i n H), Hp.
Qed.

(** A new sibling for an element that has a parent. *)
Lemma run_addprevious (self new p : nat) (ns nn np : node)
    (t : gmap nat node) (cs : list comment) :
  t !! self = Some ns -> pos ns = Under p ->
  t !! p = Some np ->
  t !! new = Some nn -> pos nn = Root -> new <> p ->
  addprevious self new (State t cs)
  = (inr tt,
     State (<[new := set_pos nn (Under p)]>
              (<[p := set_kids np (insert_before self new (kids np))]> t)) cs).
Proof.
  intros Hs Hps Hp Hn Hpn Hne. unfold addprevious. cbn [tree comments].
  rewrite (pos_of_Some t self ns Hs), Hps, (detach_unlinked new nn t Hn Hpn).
  rewrite (alter_alt_Some _ _ _ _ Hp).
  erewrite alter_alt_Some; [reflexivity |].
  now rewrite lookup_insert_ne by congruence.
Qed.

Lemma run_addnext (self new p : nat) (ns nn np : node)
    (t : gmap nat node) (cs : list comment) :
  t !! self = Some ns -> pos ns = Under p ->
  t !! p = Some np ->
  t !! new = Some nn -> pos nn = Root -> new <> p ->
  addnext self new (State t cs)
  = (inr tt,
     State (<[new := set_pos nn (Under p)]>
              (<[p := set_kids np (insert_after self new (kids np))]> t)) cs).
Proof.
  intros Hs Hps Hp Hn Hpn Hne. unfold addnext. cbn [tree comments].
  rewrite (pos_of_Some t self ns Hs), Hps, (detach_unlinked new nn t Hn Hpn).
  rewrite (alter_alt_Some _ _ _ _ Hp).
  erewrite alter_alt_Some; [reflexivity |].
  now rewrite lookup_insert_ne by congruence.
Qed.

Lemma run_append_child (self new : nat) (ns nn : node)
    (t : gmap nat node) (cs : list comment) :
  t !! self = Some ns ->
  t !! new = Some nn -> pos nn = Root -> new <> self ->
  append_child self new (State t cs)
  = (inr tt,
     State (<[new := set_pos nn (Under self)]>
              (<[self := set_kids ns (kids ns ++ [new])]> t)) cs).
Proof.
  intros Hs Hn Hpn Hne. unfold append_child, update_tree. simpl.
  rewrite (detach_unlinked new nn t Hn Hpn).
  rewrite (alter_alt_Some _ _ _ _ Hs).
  erewrite alter_alt_Some; [reflexivity |].
  now rewrite lookup_insert_ne by congruence.
Qed.

(** The root element of a document cannot get a sibling. *)
Lemma addprevious_root (self new : nat) (s : state) :
  pos_of (tree s) self = Some Root ->
  addprevious self new s = (inl TypeError, s).
Proof. intros H. unfold addprevious. now rewrite H. Qed.

(** ** Comment range markers *)

Lemma mark_comment_start_spec (t : gmap nat node) (cs : list comment)
    (p : nat) (pre : list nat) (x : nat) (post : list nat) (id : Z) :
  child_at t p pre x post ->
  exists t' np,
    mark_comment_start x id (State t cs) = (inr tt, State t' cs)
    /\ t !! p = Some np
    /\ t' !! p = Some (set_kids np (pre ++ fresh (dom t) :: x :: post))
    /\ t' !! fresh (dom t)
       = Some (Node "w:commentRangeStart" [("w:id", pretty id)] (Under p) [])
    /\ (forall j, j <> p -> j <> fresh (dom t) -> t' !! j = t !! j).
Proof.
  intros (nx & np & Hx & Hpx & Hp & Hk & Hpre & Hdom).
  set (crs := fresh (dom t)).
  assert (Hxc : x <> crs) by (apply fresh_ne; eauto).
  assert (Hpc : p <> crs) by (apply fresh_ne; eauto).
  unfold mark_comment_start.
  rewrite (run_bind _ _ _ _ _ (run_new_element _ t cs)). fold crs.
  erewrite run_bind; [| apply run_set_id, lookup_insert_eq].
  erewrite run_addprevious;
    [ | rewrite !lookup_insert_ne by congruence; exact Hx
      | exact Hpx
      | rewrite !lookup_insert_ne by congruence; exact Hp
      | apply lookup_insert_eq
      | reflexivity
      | congruence ].
  eexists _, np. split; [reflexivity |].
  split; [exact Hp |].
  split.
  { rewrite lookup_insert_ne by congruence. rewrite lookup_insert_eq.
    now rewrite Hk, insert_before_spec. }
  split.
  { now rewrite lookup_insert_eq. }
  intros j Hjp Hjc. now rewrite !lookup_insert_ne by congruence.
Qed.

Lemma insert_keeps (t : gmap nat node) (i j : nat) (v : node) :
  is_Some (t !! j) -> is_Some (<[i := v]> t !! j).
Proof.
  intros H. destruct (decide (i = j)) as [-> | Hne].
  - rewrite lookup_insert_eq. eauto.
  - now rewrite lookup_insert_ne.
Qed.

Lemma mark_comment_end_spec (t : gmap nat node) (cs : list comment)
    (p : nat) (pre : list nat) (x : nat) (post : list nat) (id : Z) :
  child_at t p pre x post ->
  exists t' np cre ref rr,
    mark_comment_end x id (State t cs) = (inr tt, State t' cs)
    /\ t !! p = Some np
    /\ (t !! cre = None /\ t !! ref = None /\ t !! rr = None)
    /\ (cre <> ref /\ cre <> rr /\ ref <> rr)
    /\ t' !! p = Some (set_kids np (pre ++ x :: cre :: rr :: post))
    /\ t' !! cre
       = Some (Node "w:commentRangeEnd" [("w:id", pretty id)] (Under p) [])
    /\ t' !! ref
       = Some (Node "w:commentReference" [("w:id", pretty id)] (Under rr) [])
    /\ t' !! rr = Some (Node "w:r" [] (Under p) [ref])
    /\ (forall j, j <> p -> j <> cre -> j <> ref -> j <> rr ->
                  t' !! j = t !! j).
Proof.
  intros (nx & np & Hx & Hpx & Hp & Hk & Hpre & Hdom).
  set (cre := fresh (dom t)).
  assert (Hxc : x <> cre) by (apply fresh_ne; eauto).
  assert (Hpc : p <> cre) by (apply fresh_ne; eauto).
  assert (Hprec : cre ∉ pre).
  { intros Hin. apply Forall_app in Hdom as [Hdpre _].
    rewrite Forall_forall in Hdpre.
    exact (fresh_ne t cre (Hdpre cre Hin) eq_refl). }
  unfold mark_comment_end.
  rewrite (run_bind _ _ _ _ _ (run_new_element _ t cs)). fold cre.
  erewrite run_bind; [| apply run_set_id, lookup_insert_eq].
  erewrite run_bind;
    [ | apply run_addnext with (ns := nx) (np := np);
        [ rewrite !lookup_insert_ne by congruence; exact Hx
        | exact Hpx
        | rewrite !lookup_insert_ne by congruence; exact Hp
        | apply lookup_insert_eq
        | reflexivity
        | congruence ] ].
  rewrite Hk, insert_after_spec by assumption.
  cbn [set_nattrib set_pos set_attr ntag nattrib pos kids].
  match goal with
  | |- context [State ?m cs] => set (t3 := m)
  end.
  assert (Hmono3 : forall k, is_Some (t !! k) -> is_Some (t3 !! k)).
  { intros k Hk3. subst t3. now repeat apply insert_keeps. }
  assert (H3c : t3 !! cre
                = Some (Node "w:commentRangeEnd" [("w:id", pretty id)]
                          (Under p) [])).
  { subst t3. now rewrite lookup_insert_eq. }
  assert (H3p : t3 !! p
                = Some (set_kids np (pre ++ x :: cre :: post))).
  { subst t3. rewrite lookup_insert_ne by congruence.
    now rewrite lookup_insert_eq. }
  assert (H3o : forall j, j <> p -> j <> cre -> t3 !! j = t !! j).
  { intros j Hjp Hjc. subst t3. now rewrite !lookup_insert_ne by congruence. }
  clearbody t3.
  rewrite (run_bind _ _ _ _ _ (run_new_element _ t3 cs)).
  set (ref := fresh (dom t3)).
  assert (Hcr : cre <> ref) by (apply fresh_ne; rewrite H3c; eauto).
  assert (Hpr : p <> ref) by (apply fresh_ne; rewrite H3p; eauto).
  assert (Htr : t !! ref = None).
  { destruct (t !! ref) eqn:E; [| reflexivity].
    exfalso. apply (fresh_ne t3 ref); [apply Hmono3; rewrite E; eauto |].
    reflexivity. }
  erewrite run_bind; [| apply run_set_id, lookup_insert_eq].
  match goal with
  | |- context [State ?m cs] => set (t5 := m)
  end.
  assert (H5r : t5 !! ref
                = Some (Node "w:commentReference" [("w:id", pretty id)]
                          Root [])).
  { subst t5. now rewrite lookup_insert_eq. }
  assert (H5o : forall j, j <> ref -> t5 !! j = t3 !! j).
  { intros j Hj. subst t5. now rewrite !lookup_insert_ne by congruence. }
  clearbody t5.
  rewrite (run_bind _ _ _ _ _ (run_new_element _ t5 cs)).
  set (rr := fresh (dom t5)).
  assert (Hcrr : cre <> rr).
  { apply fresh_ne. rewrite H5o, H3c by congruence. eauto. }
  assert (Hprr : p <> rr).
  { apply fresh_ne. rewrite H5o, H3p by congruence. eauto. }
  assert (Hrrr : ref <> rr).
  { apply fresh_ne. rewrite H5r. eauto. }
  assert (Htrr : t !! rr = None).
  { destruct (t !! rr) eqn:E; [| reflexivity].
    exfalso. apply (fresh_ne t5 rr); [| reflexivity].
    destruct (decide (rr = ref)) as [Heq | Hne]; [congruence |].
    rewrite H5o by assumption. apply Hmono3. rewrite E. eauto. }
  erewrite run_bind;
    [ | apply run_append_child;
        [ apply lookup_insert_eq
        | rewrite lookup_insert_ne by congruence; exact H5r
        | reflexivity
        | congruence ] ].
  erewrite run_addnext with (p := p);
    [ | rewrite !lookup_insert_ne by congruence;
        rewrite H5o by congruence; exact H3c
      | reflexivity
      | rewrite !lookup_insert_ne by congruence;
        rewrite H5o by congruence; exact H3p
      | rewrite lookup_insert_ne by congruence; apply lookup_insert_eq
      | reflexivity
      | congruence ].
  cbn [set_kids set_pos ntag nattrib pos kids app].
  replace (pre ++ x :: cre :: post) with ((pre ++ [x]) ++ cre :: post)
    by now rewrite <- app_assoc.
  rewrite insert_after_spec.
  2:{ intros Hin. apply elem_of_app in Hin as [Hin | Hin].
      - contradiction.
      - apply list_elem_of_singleton in Hin. congruence. }
  eexists _, np, cre, ref, rr.
  split; [reflexivity |].
  split; [exact Hp |].
  split; [repeat split; [apply fresh_lookup | exact Htr | exact Htrr] |].
  split; [repeat split; assumption |].
  split.
  { rewrite lookup_insert_ne by congruence. rewrite lookup_insert_eq.
    unfold set_kids. cbn [ntag nattrib pos kids].
    now rewrite <- app_assoc. }
  split.
  { rewrite !lookup_insert_ne by congruence.
    rewrite H5o by congruence. exact H3c. }
  split.
  { rewrite !lookup_insert_ne by congruence. now rewrite lookup_insert_eq. }
  split.
  { now rewrite lookup_insert_eq. }
  intros j Hjp Hjc Hjr Hjrr.
  rewrite !lookup_insert_ne by congruence.
  rewrite H5o by congruence. now apply H3o.
Qed.

Lemma index_of_spec (x : nat) (pre post : list nat) :
  x ∉ pre -> index_of x (pre ++ x :: post) = Some (length pre).
Proof.
  induction pre as [|y pre IH]; intros H; simpl.
  - now rewrite decide_True.
  - apply not_elem_of_cons in H as [Hxy Hpre].
    rewrite decide_False by congruence. now rewrite IH.
Qed.

Lemma not_in_known (t : gmap nat node) (l : list nat) (x : nat) :
  Forall (fun y => is_Some (t !! y)) l -> t !! x = None -> x ∉ l.
Proof.
  intros Hl Hx Hin. rewrite Forall_forall in Hl.
  destruct (Hl x Hin) as [n Hn]. congruence.
Qed.

(** The parent of an element stays when the child list of some element is
    replaced and a new element comes in. *)
Lemma parent_kept (t t1 : gmap nat node) (p c x : nat) (np nx : node)
    (l : list nat) :
  t !! p = Some np ->
  t1 !! p = Some (set_kids np l) ->
  (forall j, j <> p -> j <> c -> t1 !! j = t !! j) ->
  t !! x = Some nx -> x <> c ->
  exists nx', t1 !! x = Some nx' /\ pos nx' = pos nx.
Proof.
  intros Hp H1p H1o Hx Hxc.
  destruct (decide (x = p)) as [-> | Hne].
  - exists (set_kids np l). split; [exact H1p |].
    assert (nx = np) by congruence. now subst nx.
  - exists nx. split; [| reflexivity]. now rewrite H1o.
Qed.

(** C2. [link_comment] on a run puts a [w:commentRangeStart] directly
    before the run, a [w:commentRangeEnd] directly after it and a run with
    the [w:commentReference] directly after that one, all three with the
    id; so the start comes before the end, and the end before the
    reference run. *)
Theorem C2_link_comment_siblings (t : gmap nat node) (cs : list comment)
    (p : nat) (pre : list nat) (run : nat) (post : list nat) (id : Z) :
  child_at t p pre run post ->
  exists t' crs cre rr,
    link_comment run id (State t cs) = (inr tt, State t' cs)
    /\ kids_of t' p = pre ++ [crs; run; cre; rr] ++ post
    /\ is_marker t' crs "w:commentRangeStart" id
    /\ is_marker t' cre "w:commentRangeEnd" id
    /\ is_reference_run t' rr id
    /\ index_of crs (kids_of t' p) = Some (length pre)
    /\ index_of cre (kids_of t' p) = Some (2 + length pre)
    /\ index_of rr (kids_of t' p) = Some (3 + length pre).
Proof.
  intros Hch.
  destruct (mark_comment_start_spec t cs p pre run post id Hch)
    as (t1 & np & Hrun1 & Hp & H1p & H1c & H1o).
  destruct Hch as (nx & np' & Hx & Hpx & Hp' & Hk & Hpre & Hdom).
  assert (np' = np) by congruence. subst np'.
  set (crs := fresh (dom t)) in *.
  assert (Htc : t !! crs = None) by apply fresh_lookup.
  clearbody crs.
  assert (Hmono : forall y, is_Some (t !! y) -> is_Some (t1 !! y)).
  { intros y Hy. destruct (decide (y = p)) as [-> | Hyp].
    - rewrite H1p. eauto.
    - rewrite H1o; [exact Hy | exact Hyp |].
      intros ->. rewrite Htc in Hy. now destruct Hy. }
  assert (Hxc : run <> crs) by (intros ->; congruence).
  assert (Hpc : p <> crs) by (intros ->; congruence).
  apply Forall_app in Hdom as [Hdpre Hdpost].
  assert (Hch1 : child_at t1 p (pre ++ [crs]) run post).
  { destruct (parent_kept t t1 p crs run np nx _ Hp H1p H1o Hx Hxc)
      as (nx' & Hx' & Hpx').
    exists nx', (set_kids np (pre ++ crs :: run :: post)).
    split; [exact Hx' |].
    split; [congruence |].
    split; [exact H1p |].
    split; [cbn [kids set_kids]; now rewrite <- app_assoc |].
    split.
    - intros Hin. apply elem_of_app in Hin as [Hin | Hin];
        [contradiction | apply list_elem_of_singleton in Hin; congruence].
    - apply Forall_app. split; [apply Forall_app; split |].
      + eapply Forall_impl; [exact Hdpre | exact Hmono].
      + constructor; [rewrite H1c; eauto | constructor].
      + eapply Forall_impl; [exact Hdpost | exact Hmono]. }
  destruct (mark_comment_end_spec t1 cs p (pre ++ [crs]) run post id Hch1)
    as (t2 & np1 & cre & ref & rr & Hrun2 & Hp1 & (H1cre & H1ref & H1rr)
        & (Hcr & Hcrr & Hrrr) & H2p & H2c & H2r & H2rr & H2o).
  assert (Hcc : crs <> cre) by (intros ->; congruence).
  assert (Hcref : crs <> ref) by (intros ->; congruence).
  assert (Hcrr' : crs <> rr) by (intros ->; congruence).
  assert (H2crs : t2 !! crs
                  = Some (Node "w:commentRangeStart" [("w:id", pretty id)]
                            (Under p) [])).
  { rewrite H2o by congruence. exact H1c. }
  assert (Hkids : kids_of t2 p = pre ++ [crs; run; cre; rr] ++ post).
  { unfold kids_of. rewrite H2p. cbn [kids set_kids].
    now rewrite <- app_assoc. }
  assert (Hpre1 : Forall (fun y => is_Some (t1 !! y)) (pre ++ [crs; run])).
  { apply Forall_app. split.
    - eapply Forall_impl; [exact Hdpre | exact Hmono].
    - constructor; [rewrite H1c; eauto |].
      constructor; [apply Hmono; eauto | constructor]. }
  exists t2, crs, cre, rr.
  split.
  { unfold link_comment. rewrite (run_bind _ _ _ _ _ Hrun1). exact Hrun2. }
  split; [exact Hkids |].
  split.
  { eexists. split; [exact H2crs |]. split; reflexivity. }
  split.
  { eexists. split; [exact H2c |]. split; reflexivity. }
  split.
  { eexists _, ref. split; [exact H2rr |].
    split; [reflexivity |]. split; [reflexivity |].
    eexists. split; [exact H2r |]. split; reflexivity. }
  rewrite Hkids. split; [| split].
  - apply index_of_spec. exact (not_in_known t pre crs Hdpre Htc).
  - change (pre ++ [crs; run; cre; rr] ++ post)
      with (pre ++ [crs; run] ++ cre :: rr :: post).
    rewrite app_assoc, index_of_spec.
    + rewrite length_app. cbn [length]. f_equal. lia.
    + exact (not_in_known t1 _ cre Hpre1 H1cre).
  - change (pre ++ [crs; run; cre; rr] ++ post)
      with (pre ++ [crs; run; cre] ++ rr :: post).
    rewrite app_assoc, index_of_spec.
    + rewrite length_app. cbn [length]. f_equal. lia.
    + intros Hin.
      replace (pre ++ [crs; run; cre]) with ((pre ++ [crs; run]) ++ [cre])
        in Hin by now rewrite <- app_assoc.
      apply elem_of_app in Hin as [Hin | Hin].
      * exact (not_in_known t1 _ rr Hpre1 H1rr Hin).
      * apply list_elem_of_singleton in Hin. congruence.
Qed.

Lemma sample_run_1_child_at : child_at sample_tree 0 [] 1 [2].
Proof.
  exists (Node "w:r" [] (Under 0) []), (Node "w:p" [] Root [1; 2]).
  split; [reflexivity |]. split; [reflexivity |].
  split; [reflexivity |]. split; [reflexivity |].
  split; [apply not_elem_of_nil |].
  constructor; [eexists; reflexivity | constructor].
Qed.

Lemma C2_link_comment_siblings_witness :
  exists t' crs cre rr,
    link_comment 1 7 (State sample_tree []) = (inr tt, State t' [])
    /\ kids_of t' 0 = [] ++ [crs; 1; cre; rr] ++ [2]
    /\ is_marker t' crs "w:commentRangeStart" 7
    /\ is_marker t' cre "w:commentRangeEnd" 7
    /\ is_reference_run t' rr 7
    /\ index_of crs (kids_of t' 0) = Some 0
    /\ index_of cre (kids_of t' 0) = Some 2
    /\ index_of rr (kids_of t' 0) = Some 3.
Proof.
  exact (C2_link_comment_siblings sample_tree [] 0 [] 1 [2] 7
           sample_run_1_child_at).
Defined.

(** ** [Document.add_comment] *)

(** What comes in after [x] does not part [a] from [b], unless [a] is [x]. *)
Lemma adjacent_insert_after (a b x : nat) (ys l2 B : list nat) :
  a <> x ->
  forall l1 A : list nat,
    l1 ++ x :: l2 = A ++ a :: b :: B ->
    exists A' B', l1 ++ x :: ys ++ l2 = A' ++ a :: b :: B'.
Proof.
  intros Hax. induction l1 as [|c l1 IH]; intros A H.
  - destruct A as [|a0 A]; simpl in H; injection H as Hx Hl.
    + congruence.
    + exists (x :: ys ++ A), B. rewrite Hl. simpl.
      now rewrite <- app_assoc.
  - destruct A as [|a0 A]; simpl in H; injection H as Hc Hl.
    + rewrite Hc. destruct l1 as [|d l1]; simpl in Hl; injection Hl as Hd Hl.
      * exists [], (ys ++ l2). now rewrite Hd.
      * exists [], (l1 ++ x :: ys ++ l2). now rewrite Hd.
    + rewrite Hc. destruct (IH A Hl) as (A' & B' & HAB).
      exists (a0 :: A'), B'. simpl. now rewrite HAB.
Qed.

Lemma run_lift {A B} (r : A) (k : A -> M B) (s : state) :
  bind (lift (inr r)) k s = k r s.
Proof. reflexivity. Qed.

(** C3, as the code has it. [add_comment] checks neither the order nor the
    parents of the two runs. Once the initials are there and both runs are
    children of some element, it returns the comment; a
    [w:commentRangeStart] then stands directly before [start_run], a
    [w:commentRangeEnd] directly after [end_run] and the reference run
    directly after that one, wherever the two runs are. *)
Theorem C3_add_comment_unchecked (next_comment_id : list comment -> Z)
    (t : gmap nat node) (cs : list comment) (start_run end_run : nat)
    (author dtime comment_text : string) (initials : option string)
    (i : list N) :
  derive_initials author initials = inr i ->
  attached t start_run ->
  attached t end_run ->
  exists c t' crs cre rr,
    add_comment next_comment_id start_run end_run author dtime comment_text
      initials (State t cs)
    = (inr c, State t' (cs ++ [c]))
    /\ c = Comment (next_comment_id cs) author i dtime [comment_text]
    /\ next_sibling t' crs start_run
    /\ next_sibling t' end_run cre
    /\ next_sibling t' cre rr
    /\ is_marker t' crs "w:commentRangeStart" (_id c)
    /\ is_marker t' cre "w:commentRangeEnd" (_id c)
    /\ is_reference_run t' rr (_id c).
Proof.
  intros Hi (ps & pre & post & Hs) (pe & pre' & post' & He).
  set (c := Comment (next_comment_id cs) author i dtime [comment_text]).
  set (id := next_comment_id cs).
  destruct (mark_comment_start_spec t (cs ++ [c]) ps pre start_run post id Hs)
    as (t1 & np & Hrun1 & Hp & H1p & H1c & H1o).
  destruct Hs as (nx & np' & Hx & Hpx & Hp' & Hk & Hpre & Hdom).
  assert (np' = np) by congruence. subst np'.
  set (crs := fresh (dom t)) in *.
  assert (Htc : t !! crs = None) by apply fresh_lookup.
  clearbody crs.
  assert (Hmono : forall y, is_Some (t !! y) -> is_Some (t1 !! y)).
  { intros y Hy. destruct (decide (y = ps)) as [-> | Hyp].
    - rewrite H1p. eauto.
    - rewrite H1o; [exact Hy | exact Hyp |].
      intros ->. rewrite Htc in Hy. now destruct Hy. }
  assert (Hpc : ps <> crs) by (intros ->; congruence).
  destruct He as (ne & npe & Hen & Hpen & Hpe & Hke & Hpree & Hdome).
  assert (Hec : end_run <> crs) by (intros ->; congruence).
  assert (Hpec : pe <> crs) by (intros ->; congruence).
  (* the end run is still a child of its parent *)
  assert (He1 : exists l1 l2 npe1,
             child_at t1 pe l1 end_run l2
             /\ t1 !! pe = Some npe1 /\ kids npe1 = l1 ++ end_run :: l2
             /\ exists A B, kids_of t1 ps = A ++ crs :: start_run :: B).
  { destruct (parent_kept t t1 ps crs end_run np ne _ Hp H1p H1o Hen Hec)
      as (ne' & Hen' & Hpen').
    assert (Hps1 : kids_of t1 ps = pre ++ crs :: start_run :: post).
    { unfold kids_of. now rewrite H1p. }
    assert (Hkids1 : exists npe1, t1 !! pe = Some npe1
                       /\ end_run ∈ kids npe1
                       /\ Forall (fun y => is_Some (t1 !! y)) (kids npe1)).
    { destruct (decide (pe = ps)) as [-> | Hne].
      - exists (set_kids np (pre ++ crs :: start_run :: post)).
        assert (npe = np) by congruence. subst npe.
        split; [exact H1p |]. cbn [kids set_kids].
        assert (Hin : end_run ∈ pre ++ start_run :: post).
        { rewrite <- Hk, Hke. apply elem_of_app. right. left. }
        split.
        + apply elem_of_app in Hin as [Hin | Hin];
            apply elem_of_app; [now left | right; now right].
        + apply Forall_app in Hdom as [Hdpre Hdpost].
          apply Forall_app. split.
          * eapply Forall_impl; [exact Hdpre | exact Hmono].
          * constructor; [rewrite H1c; eauto |].
            constructor; [apply Hmono; eauto |].
            eapply Forall_impl; [exact Hdpost | exact Hmono].
      - exists npe. split; [now rewrite H1o |].
        rewrite Hke. split; [apply elem_of_app; right; left |].
        apply Forall_app in Hdome as [Hd1 Hd2].
        apply Forall_app. split.
        + eapply Forall_impl; [exact Hd1 | exact Hmono].
        + constructor; [apply Hmono; eauto |].
          eapply Forall_impl; [exact Hd2 | exact Hmono]. }
    destruct Hkids1 as (npe1 & Hpe1 & Hin1 & Hall1).
    destruct (list_elem_of_split_l _ _ Hin1) as (l1 & l2 & Hl & Hnl1).
    exists l1, l2, npe1. split; [| split; [exact Hpe1 | split; [exact Hl |]]].
    - exists ne', npe1.
      split; [exact Hen' |]. split; [congruence |].
      split; [exact Hpe1 |]. split; [exact Hl |].
      split; [exact Hnl1 |].
      rewrite Hl in Hall1. apply Forall_app in Hall1 as [Ha Hb].
      apply Forall_cons in Hb as [_ Hb]. apply Forall_app. now split.
    - exists pre, post. exact Hps1. }
  destruct He1 as (l1 & l2 & npe1 & Hch1 & Hpe1 & Hl & A & B & HAB).
  destruct (mark_comment_end_spec t1 (cs ++ [c]) pe l1 end_run l2 id Hch1)
    as (t2 & npe1' & cre & ref & rr & Hrun2 & Hpe1' & (H1cre & H1ref & H1rr)
        & (Hcr & Hcrr & Hrrr) & H2p & H2c & H2r & H2rr & H2o).
  assert (npe1' = npe1) by congruence. subst npe1'.
  assert (Hcc : crs <> cre) by (intros ->; congruence).
  assert (Hcref : crs <> ref) by (intros ->; congruence).
  assert (Hcrr' : crs <> rr) by (intros ->; congruence).
  assert (H2crs : t2 !! crs
                  = Some (Node "w:commentRangeStart" [("w:id", pretty id)]
                            (Under ps) [])).
  { rewrite H2o by congruence. exact H1c. }
  exists c, t2, crs, cre, rr.
  split.
  { unfold add_comment. rewrite Hi, run_lift.
    unfold bind at 1. cbn [comments_add_comment tree comments].
    unfold bind at 1. cbn [comment_add_p tree comments _id c_author
                             c_initials c_dtime c_paragraphs app].
    rewrite removelast_last. fold c. cbn [_id c]. fold id.
    rewrite (run_bind _ _ _ _ _ Hrun1), (run_bind _ _ _ _ _ Hrun2).
    reflexivity. }
  split; [reflexivity |].
  split.
  { (* the start marker is still directly before the start run *)
    destruct (decide (ps = pe)) as [Heq | Hne].
    - subst pe. unfold kids_of in HAB. rewrite Hpe1 in HAB.
      rewrite Hl in HAB.
      destruct (adjacent_insert_after crs start_run end_run [cre; rr] l2 B
                  (not_eq_sym Hec) l1 A HAB) as (A' & B' & HAB').
      exists ps, (set_kids npe1 (l1 ++ end_run :: cre :: rr :: l2)), A', B'.
      split; [exact H2p |]. exact HAB'.
    - exists ps, (set_kids np (pre ++ crs :: start_run :: post)), pre, post.
      split; [| reflexivity].
      rewrite H2o; [exact H1p | exact Hne | | |];
        intros ->; rewrite H1p in *; discriminate. }
  split.
  { exists pe, (set_kids npe1 (l1 ++ end_run :: cre :: rr :: l2)), l1, (rr :: l2).
    split; [exact H2p | reflexivity]. }
  split.
  { exists pe, (set_kids npe1 (l1 ++ end_run :: cre :: rr :: l2)),
      (l1 ++ [end_run]), l2.
    split; [exact H2p |]. cbn [kids set_kids]. now rewrite <- app_assoc. }
  split.
  { eexists. split; [exact H2crs |]. split; reflexivity. }
  split.
  { eexists. split; [exact H2c |]. split; reflexivity. }
  eexists _, ref. split; [exact H2rr |].
  split; [reflexivity |]. split; [reflexivity |].
  eexists. split; [exact H2r |]. split; reflexivity.
Qed.

Lemma sample_run_2_child_at : child_at sample_tree 0 [1] 2 [].
Proof.
  exists (Node "w:r" [] (Under 0) []), (Node "w:p" [] Root [1; 2]).
  split; [reflexivity |]. split; [reflexivity |].
  split; [reflexivity |]. split; [reflexivity |].
  split.
  - intros H. apply list_elem_of_singleton in H. discriminate.
  - constructor; [eexists; reflexivity | constructor].
Qed.

Lemma C3_add_comment_unchecked_witness :
  exists c t' crs cre rr,
    add_comment sample_next_comment_id 2 1 "ryan mannion" "now" "note" None
      (State sample_tree [])
    = (inr c, State t' ([] ++ [c]))
    /\ c = Comment (sample_next_comment_id []) "ryan mannion"
             (code_points "RM") "now" ["note"]
    /\ next_sibling t' crs 2
    /\ next_sibling t' 1 cre
    /\ next_sibling t' cre rr
    /\ is_marker t' crs "w:commentRangeStart" (_id c)
    /\ is_marker t' cre "w:commentRangeEnd" (_id c)
    /\ is_reference_run t' rr (_id c).
Proof.
  apply (C3_add_comment_unchecked sample_next_comment_id sample_tree []
           2 1 "ryan mannion" "now" "note" None (code_points "RM")).
  - reflexivity.
  - exists 0, [1], []. exact sample_run_2_child_at.
  - exists 0, [], [2]. exact sample_run_1_child_at.
Defined.

(** C3, as the specification words it, fails: with the end run before the
    start run the comment is made all the same and the end marker comes
    before the start marker; with the two runs in different paragraphs the
    comment is made as well. No exception is raised in either case. *)
Lemma C3_range_error_counterexample :
  (fst reversed_span
   = inr (Comment 0 "Ryan Mannion" (code_points "RM") "now" ["note"])
   /\ kids_of (tree (snd reversed_span)) 0 = [1; 6; 8; 5; 2]
   /\ ntag <$> tree (snd reversed_span) !! 5 = Some "w:commentRangeStart"
   /\ ntag <$> tree (snd reversed_span) !! 6 = Some "w:commentRangeEnd"
   /\ index_of 6 (kids_of (tree (snd reversed_span)) 0) = Some 1
   /\ index_of 5 (kids_of (tree (snd reversed_span)) 0) = Some 3)
  /\ (fst crossing_span
      = inr (Comment 0 "Ryan Mannion" (code_points "RM") "now" ["note"])
      /\ kids_of (tree (snd crossing_span)) 0 = [5; 1; 2]
      /\ kids_of (tree (snd crossing_span)) 3 = [4; 6; 8]
      /\ ntag <$> tree (snd crossing_span) !! 5 = Some "w:commentRangeStart"
      /\ ntag <$> tree (snd crossing_span) !! 6 = Some "w:commentRangeEnd").
Proof. vm_compute. repeat split; reflexivity. Qed.

(** ** The place of [w:rPr] *)

(** The operations on a run keep its [w:rPr] in front: what the text
    setter, the appender and [get_or_add_rPr] return is again a run of the
    data model. *)
Lemma rPr_leading_kept (r : element) (s : string) :
  rPr_leading r = true ->
  rPr_leading (fst (CT_R_set_text r s)) = true
  /\ rPr_leading (fst (_RunContentAppender.append_to_run_from_text r s))
     = true
  /\ rPr_leading (CT_R.get_or_add_rPr r) = true.
Proof.
  intros Hr. unfold rPr_leading in *.
  pose proof (encode_no_rPr s) as He.
  split; [| split].
  - rewrite set_text_children, (clear_content_children r Hr).
    destruct (children r) as [|c cs]; simpl in *.
    + destruct (encode s); [reflexivity |].
      simpl in He. now apply andb_true_iff in He as [_ He].
    + destruct (no_rPr_filter cs Hr) as [Hf _].
      destruct (is_rPr c); simpl; rewrite Hf; simpl.
      * exact He.
      * destruct (encode s); [reflexivity |].
        simpl in He. now apply andb_true_iff in He as [_ He].
  - rewrite append_to_run_children.
    destruct (children r) as [|c cs]; simpl in *.
    + destruct (encode s); [reflexivity |].
      simpl in He. now apply andb_true_iff in He as [_ He].
    + rewrite forallb_app. now rewrite Hr, He.
  - unfold CT_R.get_or_add_rPr, find.
    change (fun c : element => String.eqb (tag c) "w:rPr") with is_rPr.
    destruct (List.find is_rPr (children r)) eqn:E; [exact Hr |].
    simpl. destruct (children r) as [|c cs]; [reflexivity |].
    simpl in *. destruct (is_rPr c) eqn:Ec; [discriminate |].
    simpl. exact Hr.
Qed.

(** C4, where the code fails it. The run has a [w:rPr] that is not its
    first child. The [clear_content] in force, [self[1:]], takes the
    [w:rPr] away and leaves the first child, a [w:t]: after the text
    setter the run has the old text before the new one and no [w:rPr].
    The definition that it replaces in the class body keeps the [w:rPr]
    and nothing else, as the docstring of both has it. *)
Theorem C4_misplaced_rPr_removed :
  find "w:rPr" misplaced_rPr_run = Some (Element "w:rPr" [] None [])
  /\ children (CT_R.clear_content misplaced_rPr_run)
     = [Element "w:t" [] (Some "x") []]
  /\ CT_R_set_text misplaced_rPr_run "new"
     = (Element "w:r" [] None
          [Element "w:t" [] (Some "x") []; Element "w:t" [] (Some "new") []],
        None)
  /\ find "w:rPr" (fst (CT_R_set_text misplaced_rPr_run "new")) = None
  /\ CT_R.text (fst (CT_R_set_text misplaced_rPr_run "new")) = "xnew"
  /\ children (CT_R.clear_content_xpath misplaced_rPr_run)
     = [Element "w:rPr" [] None []].
Proof. repeat split; reflexivity. Qed.

(** On a run of the data model the two definitions of [clear_content]
    agree. *)
Lemma clear_content_definitions_agree (r : element) :
  rPr_leading r = true ->
  CT_R.clear_content r = CT_R.clear_content_xpath r.
Proof.
  intros Hr. pose proof (clear_content_children r Hr) as H.
  unfold CT_R.clear_content_xpath.
  change (fun c : element => String.eqb (tag c) "w:rPr") with is_rPr.
  rewrite <- H. unfold CT_R.clear_content.
  destruct (find "w:rPr" r); reflexivity.
Qed.

(** ** Further properties of the code *)

(** A carriage return in the text set is read back as a newline: both
    characters become a [w:br]. This for a text that lxml takes, for which
    the setter raises nothing. *)
Theorem set_text_reads_cr_as_lf (r : element) (s : string) :
  rPr_leading r = true -> xml_text s = true ->
  snd (CT_R_set_text r s) = None
  /\ CT_R.text (fst (CT_R_set_text r s)) = cr_to_lf s.
Proof.
  intros Hr Hs. split; [now rewrite set_text_raises, Hs |].
  rewrite text_after_set_text, text_is_text_of, clear_content_children
    by assumption.
  now rewrite text_of_rPr.
Qed.

Lemma set_text_reads_cr_as_lf_witness :
  snd (CT_R_set_text sample_run (String "a" (String CR "b"))) = None
  /\ CT_R.text (fst (CT_R_set_text sample_run (String "a" (String CR "b"))))
     = String "a" (String LF "b").
Proof.
  exact (set_text_reads_cr_as_lf sample_run (String "a" (String CR "b"))
           eq_refl eq_refl).
Defined.

Section FudgeNeverWrites.

Variable Paragraph_text : element -> string.
Variable Paragraph_set_text : element -> string -> element.

Lemma overwrite_fst (todo : list (element * option Z)) :
  forall done : list element,
    fst (overwrite Paragraph_text Paragraph_set_text done todo)
    = rev done ++ map fst todo.
Proof.
  induction todo as [|[par [num|]] rest IH]; intros done; simpl.
  - now rewrite app_nil_r.
  - reflexivity.
  - rewrite IH. simpl. now rewrite <- app_assoc.
Qed.

Lemma overwrite_snd (todo : list (element * option Z)) :
  existsb (fun pn => is_some (snd pn)) todo = true ->
  forall done : list element,
    snd (overwrite Paragraph_text Paragraph_set_text done todo)
    = Some TypeError.
Proof.
  induction todo as [|[par [num|]] rest IH]; simpl; intros H done.
  - discriminate.
  - reflexivity.
  - now apply IH.
Qed.

Lemma rmap_length {A B} (f : A -> result B) (l : list A) (ys : list B) :
  rmap f l = inr ys -> length ys = length l.
Proof.
  revert ys. induction l as [|x l IH]; simpl; intros ys H.
  - injection H as <-. reflexivity.
  - destruct (f x) as [e | y]; [discriminate |]. simpl in H.
    destruct (rmap f l) as [e | ys']; [discriminate |]. simpl in H.
    injection H as <-. simpl. now rewrite (IH ys').
Qed.

Lemma enumerate_length (groups : list (option (string * string))) :
  forall m, length (enumerate m groups) = length groups.
Proof.
  induction groups as [|[g|] rest IH]; intros m; simpl;
    [reflexivity | now rewrite IH | now rewrite IH].
Qed.

Lemma map_fst_combine {A B} (l1 : list A) :
  forall l2 : list B, length l2 = length l1 -> map fst (combine l1 l2) = l1.
Proof.
  induction l1 as [|x l1 IH]; intros [|y l2] H; simpl in *;
    try discriminate; [reflexivity |].
  f_equal. apply IH. lia.
Qed.

Lemma groups_of_list_items (paragraphs : list element) :
  forall gs,
    rmap para_num_group (map (xpath_descendants "w:numPr") paragraphs)
    = inr gs ->
    map is_some gs = map is_list_item paragraphs.
Proof.
  induction paragraphs as [|par rest IH]; simpl; intros gs H.
  - injection H as <-. reflexivity.
  - unfold is_list_item at 1.
    destruct (para_num_group (xpath_descendants "w:numPr" par))
      as [e | g] eqn:Eg; [discriminate |].
    simpl in H.
    destruct (rmap para_num_group
                (map (xpath_descendants "w:numPr") rest))
      as [e | gs'] eqn:Er; [discriminate |].
    simpl in H. injection H as <-. simpl. rewrite (IH gs' eq_refl).
    f_equal. unfold para_num_group in Eg.
    destruct (xpath_descendants "w:numPr" par) as [|p0 ps].
    + injection Eg as <-. reflexivity.
    + destruct (get "w:numId" p0); [discriminate |].
      destruct (get "w:ilvl" p0); [discriminate |].
      simpl in Eg. injection Eg as <-. reflexivity.
Qed.

Lemma enumerate_is_some (groups : list (option (string * string))) :
  forall m, map is_some (enumerate m groups) = map is_some groups.
Proof.
  induction groups as [|[g|] rest IH]; intros m; simpl;
    [reflexivity | now rewrite IH | now rewrite IH].
Qed.

Lemma existsb_combine_snd {A B} (f : B -> bool) (l1 : list A) :
  forall l2 : list B,
    length l2 = length l1 ->
    existsb (fun pn => f (snd pn)) (combine l1 l2) = existsb f l2.
Proof.
  induction l1 as [|x l1 IH]; intros [|y l2] H; simpl in *;
    try discriminate; [reflexivity |].
  rewrite IH by lia. reflexivity.
Qed.

Lemma existsb_map {A B} (f : B -> bool) (g : A -> B) (l : list A) :
  existsb f (map g l) = existsb (fun x => f (g x)) l.
Proof. induction l as [|x l IH]; simpl; [reflexivity | now rewrite IH]. Qed.

(** [fudge_list_markers] never writes a marker. Whatever the document, the
    paragraphs are afterwards what they were; and when every lookup
    succeeds and there is a list item, [num + ")"] raises [TypeError]. *)
Theorem fudge_list_markers_never_writes (paragraphs : list element) :
  fst (fudge_list_markers Paragraph_text Paragraph_set_text paragraphs)
  = paragraphs
  /\ (lookup_fails paragraphs = false ->
      existsb is_list_item paragraphs = true ->
      snd (fudge_list_markers Paragraph_text Paragraph_set_text paragraphs)
      = Some TypeError).
Proof.
  unfold fudge_list_markers.
  destruct (rmap para_num_group
              (map (xpath_descendants "w:numPr") paragraphs))
    as [e | gs] eqn:Er.
  - split; [reflexivity |].
    intros Hl Hi. exfalso.
    clear Hi. revert e Er. unfold lookup_fails in Hl.
    induction paragraphs as [|par rest IH]; simpl; intros e Er.
    + discriminate.
    + simpl in Hl. apply orb_false_iff in Hl as [Hp Hrest].
      destruct (para_num_group_ok par Hp) as [g Hg].
      rewrite Hg in Er. simpl in Er.
      destruct (rmap para_num_group
                  (map (xpath_descendants "w:numPr") rest))
        as [e' | gs'] eqn:Er'; [| discriminate].
      exact (IH Hrest e' eq_refl).
  - assert (Hlen : length (enumerate ∅ gs) = length paragraphs).
    { rewrite enumerate_length, (rmap_length _ _ _ Er). apply length_map. }
    split.
    + rewrite overwrite_fst. simpl. now apply map_fst_combine.
    + intros _ Hi. apply overwrite_snd.
      rewrite (existsb_combine_snd is_some) by assumption.
      assert (Hm : map is_some (enumerate ∅ gs)
                   = map is_list_item paragraphs).
      { rewrite enumerate_is_some. now apply groups_of_list_items. }
      assert (He : existsb (fun b : bool => b) (map is_some (enumerate ∅ gs))
                   = true).
      { rewrite Hm, existsb_map. exact Hi. }
      rewrite existsb_map in He. exact He.
Qed.

End FudgeNeverWrites.

Lemma fudge_list_markers_never_writes_witness :
  snd (fudge_list_markers sample_Paragraph_text sample_Paragraph_set_text
         sample_list)
  = Some TypeError.
Proof.
  apply (proj2 (fudge_list_markers_never_writes sample_Paragraph_text
                  sample_Paragraph_set_text sample_list));
    reflexivity.
Defined.

(** Without [initials], with no upper-case letter in [author] and an empty
    piece between spaces, [add_comment] raises [IndexError] before it
    touches the document. *)
Theorem add_comment_index_error (next_comment_id : list comment -> Z)
    (start_run end_run : nat) (author dtime comment_text : string)
    (s : state) :
  upper author = EmptyString ->
  forallb nonempty (split_space author) = false ->
  add_comment next_comment_id start_run end_run author dtime comment_text
    None s
  = (inl IndexError, s).
Proof.
  intros Hu He. unfold add_comment, derive_initials, splitter.
  rewrite Hu. cbn [String.eqb]. now rewrite (rmap_first_char_empty _ He).
Qed.

Lemma add_comment_index_error_witness :
  add_comment sample_next_comment_id 1 2 ryan_two_spaces_mannion "now" "note"
    None sample_state
  = (inl IndexError, sample_state).
Proof. apply add_comment_index_error; reflexivity. Defined.

Lemma rPr_leading_kept_witness :
  rPr_leading (fst (CT_R_set_text sample_run "x")) = true
  /\ rPr_leading
       (fst (_RunContentAppender.append_to_run_from_text sample_run "x"))
     = true
  /\ rPr_leading (CT_R.get_or_add_rPr sample_run) = true.
Proof. exact (rPr_leading_kept sample_run "x" eq_refl). Defined.

(** ** Deleted text *)

Lemma add_dt_spec (r : element) (txt : string) :
  add_dt r txt
  = if xml_text txt
    then inr (with_children r (children r ++ [to_del (text_atom txt)]))
    else inl ValueError.
Proof.
  unfold add_dt, set_text, text_atom, to_del.
  destruct (xml_text txt); [| reflexivity]. cbn [rbind].
  destruct (String.length (strip txt) <? String.length txt)%nat.
  - erewrite set_last_child_snoc by reflexivity. reflexivity.
  - reflexivity.
Qed.

Lemma del_flush_spec (r : element) (bfr : list ascii) :
  _DelRunContentAppender.flush (_DelRunContentAppender.Appender r bfr)
  = if xml_text (string_of_list_ascii bfr)
    then inr (_DelRunContentAppender.Appender
                (with_children r (children r ++ map to_del (flushed bfr))) [])
    else inl ValueError.
Proof.
  unfold _DelRunContentAppender.flush.
  cbn [_DelRunContentAppender._r _DelRunContentAppender._bfr].
  destruct bfr as [|c bfr].
  - cbn. now rewrite app_nil_r, with_children_id.
  - cbn [string_of_list_ascii String.eqb flushed map]. rewrite add_dt_spec.
    now destruct (xml_text (String c (string_of_list_ascii bfr))).
Qed.

Lemma add_deltext_cons (a : _DelRunContentAppender.appender) (c : ascii)
    (s : string) :
  _DelRunContentAppender.add_deltext a (String c s)
  = match _DelRunContentAppender.add_char a c with
    | inl e => (a, Some e)
    | inr a1 => _DelRunContentAppender.add_deltext a1 s
    end.
Proof.
  unfold _DelRunContentAppender.add_deltext.
  cbn [_DelRunContentAppender.add_chars].
  now destruct (_DelRunContentAppender.add_char a c).
Qed.

Lemma add_deltext_spec (s : string) :
  forall (r : element) (bfr : list ascii),
    _DelRunContentAppender._r
      (fst (_DelRunContentAppender.add_deltext
              (_DelRunContentAppender.Appender r bfr) s))
    = with_children r (children r ++ map to_del (fst (written_from bfr s)))
    /\ snd (_DelRunContentAppender.add_deltext
              (_DelRunContentAppender.Appender r bfr) s)
       = snd (written_from bfr s).
Proof.
  induction s as [|c s IH]; intros r bfr.
  - unfold _DelRunContentAppender.add_deltext.
    cbn [_DelRunContentAppender.add_chars written_from].
    rewrite del_flush_spec.
    destruct (xml_text (string_of_list_ascii bfr)); cbn [fst snd].
    + now split.
    + cbn [_DelRunContentAppender._r map]. now rewrite with_children_nil.
  - rewrite add_deltext_cons. cbn [written_from].
    unfold _DelRunContentAppender.add_char.
    destruct (Ascii.eqb c TAB).
    + rewrite del_flush_spec.
      destruct (xml_text (string_of_list_ascii bfr)); cbn [rbind fst snd].
      * cbn [_DelRunContentAppender._r _DelRunContentAppender._bfr].
        unfold CT_R.add_tab, append.
        destruct (IH (with_children
                        (with_children r
                           (children r ++ map to_del (flushed bfr)))
                        (children
                           (with_children r
                              (children r ++ map to_del (flushed bfr)))
                         ++ [OxmlElement "w:tab"])) []) as [H1 H2].
        rewrite H1, H2. split; [| reflexivity].
        cbn [children with_children tag attrib text].
        unfold with_children. cbn [tag attrib text].
        rewrite map_app. cbn [map]. now rewrite <- !app_assoc.
      * cbn [_DelRunContentAppender._r map]. now rewrite with_children_nil.
    + destruct (Ascii.eqb c CR || Ascii.eqb c LF).
      * rewrite del_flush_spec.
        destruct (xml_text (string_of_list_ascii bfr)); cbn [rbind fst snd].
        -- cbn [_DelRunContentAppender._r _DelRunContentAppender._bfr].
           unfold CT_R.add_br, append.
           destruct (IH (with_children
                           (with_children r
                              (children r ++ map to_del (flushed bfr)))
                           (children
                              (with_children r
                                 (children r ++ map to_del (flushed bfr)))
                            ++ [OxmlElement "w:br"])) []) as [H1 H2].
           rewrite H1, H2. split; [| reflexivity].
           cbn [children with_children tag attrib text].
           unfold with_children. cbn [tag attrib text].
           rewrite map_app. cbn [map]. now rewrite <- !app_assoc.
        -- cbn [_DelRunContentAppender._r map]. now rewrite with_children_nil.
      * cbn [_DelRunContentAppender._r _DelRunContentAppender._bfr]. apply IH.
Qed.

Lemma del_append_to_run_spec (r : element) (s : string) :
  _DelRunContentAppender.append_to_run_from_text r s
  = (with_children r (children r ++ map to_del (encode s)),
     snd (written_from [] s)).
Proof.
  unfold _DelRunContentAppender.append_to_run_from_text,
    _DelRunContentAppender.init.
  destruct (add_deltext_spec s r []) as [H1 H2].
  destruct (_DelRunContentAppender.add_deltext
              (_DelRunContentAppender.Appender r []) s) as [a e].
  cbn [fst snd] in *. now rewrite H1, H2, encode_spec.
Qed.

Lemma del_appender_retags_children (r : element) (s : string) :
  children (fst (_DelRunContentAppender.append_to_run_from_text r s))
  = children r ++ map to_del (encode s).
Proof. now rewrite del_append_to_run_spec. Qed.

(** The appender of deleted text is the appender of text with [w:delText]
    in the place of [w:t]: the same cuts at tabs and line ends, the same
    [xml:space] attributes, no empty element, and the same exception on
    the same texts. *)
Theorem del_appender_retags (r : element) (s : string) :
  children (fst (_DelRunContentAppender.append_to_run_from_text r s))
  = children r ++ map to_del (encode s)
  /\ snd (_DelRunContentAppender.append_to_run_from_text r s)
     = snd (_RunContentAppender.append_to_run_from_text r s).
Proof.
  split; [apply del_appender_retags_children |].
  now rewrite del_append_to_run_spec, append_to_run_spec.
Qed.

Lemma deltext_fold (l : list element) :
  forall acc : string,
    fold_left deltext_step l acc
    = (acc ++ fold_left deltext_step l "")%string.
Proof.
  induction l as [|e l IH]; intros acc; simpl.
  - now rewrite append_empty_r.
  - rewrite IH. rewrite (IH (deltext_step "" e)).
    rewrite <- append_assoc. f_equal.
    unfold deltext_step.
    destruct (String.eqb (tag e) "w:delText"); [reflexivity |].
    destruct (String.eqb (tag e) "w:tab"); [reflexivity |].
    destruct (String.eqb (tag e) "w:br" || String.eqb (tag e) "w:cr");
      [reflexivity | now rewrite append_empty_r].
Qed.

Lemma deltext_app (l1 l2 : list element) :
  fold_left deltext_step (l1 ++ l2) ""
  = (fold_left deltext_step l1 "" ++ fold_left deltext_step l2 "")%string.
Proof. rewrite fold_left_app. apply deltext_fold. Qed.

Lemma deltext_cons (e : element) (l : list element) :
  fold_left deltext_step (e :: l) ""
  = (deltext_step "" e ++ fold_left deltext_step l "")%string.
Proof. simpl. apply deltext_fold. Qed.

Lemma deltext_rPr (l : list element) :
  fold_left deltext_step (List.filter is_rPr l) "" = "".
Proof.
  induction l as [|c l IH]; [reflexivity |].
  simpl. destruct (is_rPr c) eqn:E; [| exact IH].
  rewrite deltext_cons, IH. unfold deltext_step.
  unfold is_rPr in E. apply String.eqb_eq in E. rewrite E. reflexivity.
Qed.

Lemma text_of_map (f : element -> element) (g : element -> string)
    (l : list element) :
  Forall (fun e => item_text (f e) = g e) l ->
  text_of (map f l) = join (map g l).
Proof.
  induction 1 as [|e l He Hl IH]; [reflexivity |].
  simpl. rewrite text_of_cons. fold (item_text (f e)).
  rewrite He, IH. reflexivity.
Qed.

Lemma deltext_map (f : element -> element) (g : element -> string)
    (l : list element) :
  Forall (fun e => deltext_step "" (f e) = g e) l ->
  fold_left deltext_step (map f l) "" = join (map g l).
Proof.
  induction 1 as [|e l He Hl IH]; [reflexivity |].
  simpl map. rewrite deltext_cons, He, IH. reflexivity.
Qed.

Lemma join_item_text (l : list element) :
  join (map item_text l) = text_of l.
Proof.
  induction l as [|e l IH]; [reflexivity |].
  rewrite text_of_cons. simpl. now rewrite <- IH.
Qed.

Lemma join_separators (s : string) :
  forall bfr : list ascii,
    join (map separator_text (atoms_from bfr s)) = separators s.
Proof.
  assert (Hfl : forall bfr, join (map separator_text (flushed bfr)) = "").
  { intros [|c bfr]; reflexivity. }
  induction s as [|c s IH]; intros bfr; cbn [atoms_from separators].
  - apply Hfl.
  - destruct (Ascii.eqb c TAB).
    + rewrite map_app, join_app, Hfl. simpl map. unfold join at 1.
      cbn [fold_right]. fold (join (map separator_text (atoms_from [] s))).
      now rewrite IH.
    + destruct (Ascii.eqb c CR || Ascii.eqb c LF).
      * rewrite map_app, join_app, Hfl. simpl map. unfold join at 1.
        cbn [fold_right]. fold (join (map separator_text (atoms_from [] s))).
        now rewrite IH.
      * apply IH.
Qed.

Lemma set_deltext_children (r : element) (s : string) :
  rPr_leading r = true ->
  children (fst (CT_R_set_deltext r s))
  = List.filter is_rPr (children r) ++ map to_del (encode s).
Proof.
  intros Hr. unfold CT_R_set_deltext.
  now rewrite del_appender_retags_children, clear_content_children.
Qed.

Lemma set_deltext_raises (r : element) (s : string) :
  snd (CT_R_set_deltext r s) = if xml_text s then None else Some ValueError.
Proof.
  unfold CT_R_set_deltext.
  now rewrite del_append_to_run_spec, written_from_raises.
Qed.

(** What is set as deleted text is read back as deleted text, a carriage
    return as a newline, when lxml takes the text, and the setter raises
    nothing then; a text of printable characters, tabs and newlines comes
    back as it is. *)
Theorem deltext_round_trip (r : element) (s : string) :
  rPr_leading r = true ->
  (xml_text s = true ->
   snd (CT_R_set_deltext r s) = None
   /\ CT_R_deltext (fst (CT_R_set_deltext r s)) = cr_to_lf s)
  /\ (codec_text s = true ->
      snd (CT_R_set_deltext r s) = None
      /\ CT_R_deltext (fst (CT_R_set_deltext r s)) = s).
Proof.
  intros Hr.
  assert (H : xml_text s = true ->
              snd (CT_R_set_deltext r s) = None
              /\ CT_R_deltext (fst (CT_R_set_deltext r s)) = cr_to_lf s).
  { intros Hs. split; [now rewrite set_deltext_raises, Hs |].
    unfold CT_R_deltext.
    rewrite set_deltext_children, deltext_app, deltext_rPr by assumption.
    rewrite append_nil.
    rewrite (deltext_map to_del item_text).
    - now rewrite join_item_text, text_of_encode.
    - apply encode_Forall; intros; reflexivity. }
  split; [exact H |].
  intros Hs. destruct (H (codec_text_xml s Hs)) as [H1 H2].
  split; [exact H1 |]. now rewrite H2, cr_to_lf_codec_text.
Qed.

Lemma deltext_round_trip_witness :
  snd (CT_R_set_deltext sample_del_run sample_text) = None
  /\ CT_R_deltext (fst (CT_R_set_deltext sample_del_run sample_text))
     = String "a" (String TAB (String "b" (String LF "c"))).
Proof.
  exact (proj2 (deltext_round_trip sample_del_run sample_text eq_refl)
           eq_refl).
Defined.

(** The two getters do not see each other's text. Of a text set as
    deleted text the [text] getter returns the tabs and line ends only, and
    so does the [deltext] getter of a text set as text. This for a text
    that lxml takes. *)
Theorem text_and_deltext_apart (r : element) (s : string) :
  rPr_leading r = true -> xml_text s = true ->
  CT_R.text (fst (CT_R_set_deltext r s)) = separators s
  /\ CT_R_deltext (fst (CT_R_set_text r s)) = separators s.
Proof.
  intros Hr Hs. split.
  - rewrite text_is_text_of, set_deltext_children, text_of_app, text_of_rPr
      by assumption.
    rewrite append_nil, (text_of_map to_del separator_text).
    + rewrite encode_xml by assumption. apply join_separators.
    + apply encode_Forall; intros; reflexivity.
  - unfold CT_R_deltext.
    rewrite set_text_children, clear_content_children, deltext_app,
      deltext_rPr by assumption.
    rewrite append_nil.
    rewrite <- (map_id (encode s)) at 1.
    rewrite (deltext_map (fun e => e) separator_text).
    + rewrite encode_xml by assumption. apply join_separators.
    + apply encode_Forall; intros; reflexivity.
Qed.

Lemma text_and_deltext_apart_witness :
  CT_R.text (fst (CT_R_set_deltext sample_del_run sample_text))
  = String TAB (String LF "")
  /\ CT_R_deltext (fst (CT_R_set_text sample_del_run sample_text))
     = String TAB (String LF "").
Proof.
  exact (text_and_deltext_apart sample_del_run sample_text eq_refl eq_refl).
Defined.

(** ** Comment ranges by position in a paragraph *)

Lemma lxml_insert_at (a r : list element) (x : element) :
  lxml_insert (Z.of_nat (length a)) x (a ++ r) = a ++ x :: r.
Proof.
  unfold lxml_insert. rewrite Nat2Z.id, take_app_length, drop_app_length.
  rewrite length_app.
  destruct (Z.leb_spec 0 (Z.of_nat (length a))) as [_ | H]; [| lia].
  destruct (Z.ltb_spec (Z.of_nat (length a))
              (Z.of_nat (length a + length r))) as [Hlt | Hge].
  - reflexivity.
  - cbn [andb].
    destruct (Z.ltb_spec (Z.of_nat (length a)) 0) as [H | _]; [lia |].
    cbn [andb]. destruct r as [|y r]; [| simpl in Hge; lia].
    now rewrite app_nil_r.
Qed.

Lemma lxml_insert_split (index : Z) (x : element) (l : list element) :
  exists i, lxml_insert index x l = take i l ++ x :: drop i l.
Proof.
  unfold lxml_insert.
  destruct ((0 <=? index) && (index <? Z.of_nat (length l)))%Z;
    [now eexists |].
  destruct ((index <? 0) && (- Z.of_nat (length l) <=? index))%Z;
    [now eexists |].
  exists (length l). now rewrite take_ge, drop_ge by lia.
Qed.

Lemma CT_P_link_comment_all (p : element) (id : Z) :
  children (CT_P_link_comment p id 0 0)
  = marker "w:commentRangeStart" id :: children p
      ++ [marker "w:commentRangeEnd" id].
Proof.
  unfold CT_P_link_comment. cbn [Z.eqb andb].
  unfold append, insert. cbn [children with_children].
  change 0%Z with (Z.of_nat (length (@nil element))).
  rewrite (lxml_insert_at [] (children p)). reflexivity.
Qed.

(** [link_comment] with [rangeStart] the number of children before a
    stretch [b] of the children and [rangeEnd] the number of children up to
    its end puts the markers around [b]: the child at index [rangeEnd] is
    outside the range, and the last child is inside only when [rangeEnd]
    is the number of children. With both at 0 the markers go around all
    the children. *)
Theorem CT_P_link_comment_encloses (p : element) (id : Z)
    (a b c : list element) :
  children p = a ++ b ++ c ->
  (length a + length b <> 0 ->
   children (CT_P_link_comment p id (Z.of_nat (length a))
               (Z.of_nat (length a + length b)))
   = a ++ marker "w:commentRangeStart" id :: b
       ++ marker "w:commentRangeEnd" id :: c)
  /\ children (CT_P_link_comment p id 0 0)
     = marker "w:commentRangeStart" id :: children p
         ++ [marker "w:commentRangeEnd" id].
Proof.
  intros Hc. split.
  - intros Hne. unfold CT_P_link_comment.
    replace ((Z.of_nat (length a) =? 0)
             && (Z.of_nat (length a + length b) =? 0))%Z with false.
    2:{ symmetry. apply andb_false_iff. right. apply Z.eqb_neq. lia. }
    unfold insert. cbn [children with_children].
    rewrite Hc, lxml_insert_at.
    destruct c as [|y c].
    + replace (Z.of_nat (length a + length b)
               =? Z.of_nat
                    (length (a ++ marker "w:commentRangeStart" id :: b ++ []))
                  - 1)%Z with true.
      2:{ symmetry. apply Z.eqb_eq.
          rewrite length_app. cbn [length]. rewrite length_app. simpl. lia. }
      unfold append. cbn [children with_children].
      rewrite app_nil_r. now rewrite <- app_assoc.
    + replace (Z.of_nat (length a + length b)
               =? Z.of_nat
                    (length
                       (a ++ marker "w:commentRangeStart" id :: b ++ y :: c))
                  - 1)%Z with false.
      2:{ symmetry. apply Z.eqb_neq.
          rewrite length_app. cbn [length]. rewrite length_app. simpl. lia. }
      cbn [children with_children].
      replace (Z.of_nat (length a + length b) + 1)%Z
        with (Z.of_nat (length (a ++ marker "w:commentRangeStart" id :: b))).
      2:{ rewrite length_app. simpl. lia. }
      replace (a ++ marker "w:commentRangeStart" id :: b ++ y :: c)
        with ((a ++ marker "w:commentRangeStart" id :: b) ++ y :: c)
        by now rewrite <- app_assoc.
      rewrite lxml_insert_at. now rewrite <- app_assoc.
  - apply CT_P_link_comment_all.
Qed.

Lemma CT_P_link_comment_encloses_witness :
  children (CT_P_link_comment sample_paragraph 7 1 2)
  = [ Element "w:r" [] None [Element "w:t" [] (Some "a") []];
      marker "w:commentRangeStart" 7;
      Element "w:r" [] None [Element "w:t" [] (Some "b") []];
      marker "w:commentRangeEnd" 7;
      Element "w:r" [] None [Element "w:t" [] (Some "c") []] ].
Proof.
  apply (proj1 (CT_P_link_comment_encloses sample_paragraph 7
                  [Element "w:r" [] None [Element "w:t" [] (Some "a") []]]
                  [Element "w:r" [] None [Element "w:t" [] (Some "b") []]]
                  [Element "w:r" [] None [Element "w:t" [] (Some "c") []]]
                  eq_refl)).
  discriminate.
Defined.

(** With [rangeStart] beyond [rangeEnd] the end marker comes before the
    start marker: [link_comment] does not order its two positions. *)
Theorem CT_P_link_comment_reversed (p : element) (id : Z)
    (a b c : list element) (x : element) :
  children p = (a ++ [x]) ++ b ++ c ->
  children (CT_P_link_comment p id
              (Z.of_nat (length a + 1 + length b)) (Z.of_nat (length a)))
  = (a ++ [x]) ++ marker "w:commentRangeEnd" id :: b
      ++ marker "w:commentRangeStart" id :: c.
Proof.
  intros Hc. unfold CT_P_link_comment.
  replace ((Z.of_nat (length a + 1 + length b) =? 0)
           && (Z.of_nat (length a) =? 0))%Z with false.
  2:{ symmetry. apply andb_false_iff. left. apply Z.eqb_neq. lia. }
  unfold insert. cbn [children with_children].
  rewrite Hc.
  replace ((a ++ [x]) ++ b ++ c) with (((a ++ [x]) ++ b) ++ c)
    by now rewrite <- !app_assoc.
  replace (Z.of_nat (length a + 1 + length b))
    with (Z.of_nat (length ((a ++ [x]) ++ b))).
  2:{ rewrite !length_app. simpl. lia. }
  rewrite lxml_insert_at.
  replace (Z.of_nat (length a)
           =? Z.of_nat
                (length
                   (((a ++ [x]) ++ b)
                    ++ marker "w:commentRangeStart" id :: c)) - 1)%Z
    with false.
  2:{ symmetry. apply Z.eqb_neq. rewrite !length_app. simpl. lia. }
  cbn [children with_children].
  replace (Z.of_nat (length a) + 1)%Z with (Z.of_nat (length (a ++ [x]))).
  2:{ rewrite length_app. simpl. lia. }
  rewrite <- (app_assoc (a ++ [x]) b).
  rewrite lxml_insert_at. now rewrite <- app_assoc.
Qed.

Lemma CT_P_link_comment_reversed_witness :
  children (CT_P_link_comment sample_paragraph 7 2 0)
  = [ Element "w:r" [] None [Element "w:t" [] (Some "a") []];
      marker "w:commentRangeEnd" 7;
      Element "w:r" [] None [Element "w:t" [] (Some "b") []];
      marker "w:commentRangeStart" 7;
      Element "w:r" [] None [Element "w:t" [] (Some "c") []] ].
Proof.
  exact (CT_P_link_comment_reversed sample_paragraph 7 []
           [Element "w:r" [] None [Element "w:t" [] (Some "b") []]]
           [Element "w:r" [] None [Element "w:t" [] (Some "c") []]]
           (Element "w:r" [] None [Element "w:t" [] (Some "a") []])
           eq_refl).
Defined.

(** ** Comments and the text of a paragraph *)

Section ParagraphText.

Variable next_comment_id : list comment -> Z.
Variable Hyperlink_text : element -> string.

Lemma omap_lxml_insert {B} (f : element -> option B) (index : Z)
    (x : element) (l : list element) :
  f x = None -> omap f (lxml_insert index x l) = omap f l.
Proof.
  intros Hx. destruct (lxml_insert_split index x l) as [i ->].
  rewrite omap_app. simpl. rewrite Hx, <- omap_app. now rewrite take_drop.
Qed.

Lemma CT_P_text_link_comment (p : element) (id rangeStart rangeEnd : Z) :
  CT_P_text Hyperlink_text (CT_P_link_comment p id rangeStart rangeEnd)
  = CT_P_text Hyperlink_text p.
Proof.
  unfold CT_P_text, CT_P_link_comment.
  destruct ((rangeStart =? 0) && (rangeEnd =? 0))%Z.
  - unfold append, insert. cbn [children with_children].
    rewrite omap_app, omap_lxml_insert by reflexivity.
    simpl. now rewrite app_nil_r.
  - destruct (rangeEnd
              =? Z.of_nat (length (children (insert p rangeStart
                                     (marker "w:commentRangeStart" id)))) - 1)%Z.
    + unfold append, insert. cbn [children with_children].
      rewrite omap_app, omap_lxml_insert by reflexivity.
      simpl. now rewrite app_nil_r.
    + unfold insert. cbn [children with_children].
      now rewrite !omap_lxml_insert by reflexivity.
Qed.

(** Comments leave the text of a paragraph as it is: neither the range
    markers, wherever [rangeStart] and [rangeEnd] put them, nor the run of
    the reference that [add_comm] adds has a text. *)
Theorem comments_keep_paragraph_text (p : element) (cs : list comment)
    (author initials dtime comment_text : string) (id rangeStart rangeEnd : Z) :
  CT_P_text Hyperlink_text (CT_P_link_comment p id rangeStart rangeEnd)
  = CT_P_text Hyperlink_text p
  /\ CT_P_text Hyperlink_text
       (snd (fst (add_comm next_comment_id p cs author initials dtime
                    comment_text rangeStart rangeEnd)))
     = CT_P_text Hyperlink_text p.
Proof.
  split; [apply CT_P_text_link_comment |].
  unfold add_comm. cbn [fst snd]. rewrite CT_P_text_link_comment.
  unfold CT_P_text, add_reference_run, append.
  cbn [children with_children]. rewrite omap_app, join_app.
  cbn. now rewrite append_empty_r.
Qed.

(** [add_comm] with the positions left at 0 puts the run of the reference
    inside the range, before the end marker: the run is added to the
    paragraph first and the markers go around all the children. *)
Theorem add_comm_reference_inside (p : element) (cs : list comment)
    (author initials dtime comment_text : string) :
  let id := next_comment_id cs in
  children (snd (fst (add_comm next_comment_id p cs author initials dtime
                        comment_text 0 0)))
  = marker "w:commentRangeStart" id :: children p
      ++ [ append (OxmlElement "w:r") (marker "w:commentReference" id);
           marker "w:commentRangeEnd" id ].
Proof.
  unfold add_comm. cbn [fst snd _id].
  rewrite CT_P_link_comment_all. unfold add_reference_run, append.
  cbn [children with_children]. now rewrite <- app_assoc.
Qed.

End ParagraphText.

(** ** Ids read back as numbers *)

Lemma int_digits_value (s : string) :
  forall (acc : Z) (b : bool),
    digits_only s = true ->
    (s <> EmptyString \/ b = true) ->
    int_digits acc b s = Some (dec_value acc s).
Proof.
  induction s as [|c s IH]; intros acc b Hd Hne.
  - destruct Hne as [Hne | ->]; [congruence | reflexivity].
  - cbn [int_digits dec_value digits_only] in *.
    apply andb_true_iff in Hd as [Hc Hs].
    destruct (digit_of c) as [d|]; [| discriminate].
    apply IH; [exact Hs | now right].
Qed.

Lemma digit_of_pretty_N_char (x : N) :
  (x < 10)%N -> digit_of (pretty_N_char x) = Some (Z.of_N x).
Proof.
  intros H.
  assert (Hx : (x = 0 \/ x = 1 \/ x = 2 \/ x = 3 \/ x = 4 \/ x = 5 \/ x = 6
                \/ x = 7 \/ x = 8 \/ x = 9)%N) by lia.
  destruct Hx as [-> | [-> | [-> | [-> | [-> | [-> | [-> | [-> | [-> | ->]]]]]]]]];
    reflexivity.
Qed.

Lemma pretty_N_go_digits (x : N) :
  forall s : string,
    digits_only s = true ->
    digits_only (pretty_N_go x s) = true
    /\ dec_value 0 (pretty_N_go x s) = dec_value (Z.of_N x) s
    /\ (s <> EmptyString -> pretty_N_go x s <> EmptyString).
Proof.
  induction (N.lt_wf_0 x) as [x _ IH]. intros s Hs.
  destruct (decide (x = 0)%N) as [-> | Hx].
  - rewrite pretty_N_go_0. now repeat split.
  - assert (Hpos : (0 < x)%N) by lia.
    rewrite pretty_N_go_step by exact Hpos.
    pose proof (digit_of_pretty_N_char (x `mod` 10)
                  (N.mod_lt x 10 ltac:(lia))) as Hd.
    destruct (IH (x `div` 10)%N (N.div_lt x 10 Hpos eq_refl)
                (String (pretty_N_char (x `mod` 10)) s)) as (H1 & H2 & H3).
    { cbn [digits_only]. now rewrite Hd, Hs. }
    split; [exact H1 |]. split.
    + rewrite H2. cbn [dec_value]. rewrite Hd. f_equal.
      pose proof (N.div_mod x 10 ltac:(lia)). lia.
    + intros _. apply H3. discriminate.
Qed.

Lemma pretty_N_go_nonempty (x : N) :
  (0 < x)%N -> pretty_N_go x "" <> EmptyString.
Proof.
  intros Hpos. rewrite pretty_N_go_step by exact Hpos.
  apply pretty_N_go_digits; [| discriminate].
  cbn [digits_only].
  now rewrite (digit_of_pretty_N_char _ (N.mod_lt x 10 ltac:(lia))).
Qed.

Lemma digits_no_space (s : string) :
  digits_only s = true -> no_space s = true.
Proof.
  induction s as [|c s IH]; [reflexivity |].
  cbn [digits_only no_space]. intros H.
  apply andb_true_iff in H as [Hc Hs]. rewrite (IH Hs), andb_true_r.
  unfold digit_of in Hc. unfold isspace.
  destruct ((48 <=? nat_of_ascii c) && (nat_of_ascii c <=? 57))%nat eqn:E;
    [| discriminate].
  apply andb_true_iff in E as [E1 E2].
  apply Nat.leb_le in E1. apply Nat.leb_le in E2.
  repeat match goal with
         | |- context [(?a <=? ?b)%nat] => destruct (Nat.leb_spec a b)
         | |- context [(?a =? ?b)%nat] => destruct (Nat.eqb_spec a b)
         end; try reflexivity; lia.
Qed.

Lemma rstrip_no_space (s : string) : no_space s = true -> rstrip s = s.
Proof.
  induction s as [|c s IH]; [reflexivity |].
  cbn [no_space rstrip]. intros H.
  apply andb_true_iff in H as [Hc Hs]. rewrite (IH Hs).
  destruct s; [| reflexivity].
  now destruct (isspace c).
Qed.

Lemma strip_no_space (s : string) : no_space s = true -> strip s = s.
Proof.
  intros H. unfold strip. rewrite (rstrip_no_space s H).
  destruct s as [|c s]; [reflexivity |].
  cbn [no_space] in H. apply andb_true_iff in H as [Hc _].
  cbn [lstrip]. now destruct (isspace c).
Qed.

Lemma py_int_digits (s : string) :
  digits_only s = true -> s <> EmptyString ->
  py_int s = Some (dec_value 0 s)
  /\ py_int (String "-" s) = Some (- dec_value 0 s)%Z.
Proof.
  intros Hd Hne. unfold py_int. split.
  - rewrite (strip_no_space s (digits_no_space s Hd)).
    destruct s as [|c s]; [congruence |].
    cbn [digits_only] in Hd. apply andb_true_iff in Hd as [Hc Hs].
    assert (Hplus : Ascii.eqb c "+" = false).
    { destruct (Ascii.eqb c "+") eqn:E; [| reflexivity].
      apply Ascii.eqb_eq in E. subst c. discriminate. }
    assert (Hminus : Ascii.eqb c "-" = false).
    { destruct (Ascii.eqb c "-") eqn:E; [| reflexivity].
      apply Ascii.eqb_eq in E. subst c. discriminate. }
    rewrite Hplus, Hminus.
    apply int_digits_value; [| left; discriminate].
    cbn [digits_only]. now rewrite Hc, Hs.
  - rewrite strip_no_space.
    2:{ cbn [no_space]. now rewrite (digits_no_space s Hd). }
    replace (Ascii.eqb "-" "+") with false by reflexivity.
    replace (Ascii.eqb "-" "-") with true by reflexivity.
    now rewrite (int_digits_value s 0 false Hd (or_introl Hne)).
Qed.

(** A number written in decimal by [pretty] is read back by [int]. *)
Lemma py_int_pretty (z : Z) : py_int (pretty z) = Some z.
Proof.
  destruct z as [|p|p].
  - reflexivity.
  - change (pretty (Z.pos p)) with (pretty_N_go (N.pos p) "").
    destruct (pretty_N_go_digits (N.pos p) "" eq_refl) as (Hd & Hv & _).
    destruct (py_int_digits _ Hd (pretty_N_go_nonempty (N.pos p) eq_refl))
      as [H _].
    rewrite H, Hv. reflexivity.
  - change (pretty (Z.neg p)) with (String "-" (pretty_N_go (N.pos p) "")).
    destruct (pretty_N_go_digits (N.pos p) "" eq_refl) as (Hd & Hv & _).
    destruct (py_int_digits _ Hd (pretty_N_go_nonempty (N.pos p) eq_refl))
      as [_ H].
    rewrite H, Hv. reflexivity.
Qed.

Lemma omap_lxml_insert_some {B} (f : element -> option B) (index : Z)
    (x : element) (l : list element) (v : B) :
  f x = Some v ->
  exists l1 l2,
    omap f l = l1 ++ l2 /\ omap f (lxml_insert index x l) = l1 ++ v :: l2.
Proof.
  intros Hx. destruct (lxml_insert_split index x l) as [i ->].
  exists (omap f (take i l)), (omap f (drop i l)). split.
  - now rewrite <- omap_app, take_drop.
  - rewrite omap_app. simpl. now rewrite Hx.
Qed.

Lemma child_ids_link_comment (p : element) (id rangeStart rangeEnd : Z) :
  exists l1 l2,
    child_ids "w:commentRangeStart" p = l1 ++ l2
    /\ child_ids "w:commentRangeStart"
         (CT_P_link_comment p id rangeStart rangeEnd)
       = l1 ++ pretty id :: l2.
Proof.
  unfold child_ids, CT_P_link_comment.
  set (f := fun c : element =>
              if String.eqb (tag c) "w:commentRangeStart"
              then get_attr "w:id" (attrib c) else None).
  destruct (omap_lxml_insert_some f rangeStart
              (marker "w:commentRangeStart" id) (children p) (pretty id)
              eq_refl) as (l1 & l2 & Hl & Hins).
  destruct (omap_lxml_insert_some f 0
              (marker "w:commentRangeStart" id) (children p) (pretty id)
              eq_refl) as (k1 & k2 & Hk & Hins0).
  destruct ((rangeStart =? 0) && (rangeEnd =? 0))%Z.
  - exists k1, k2. split; [exact Hk |].
    unfold append, insert. cbn [children with_children].
    rewrite omap_app, Hins0. simpl. now rewrite app_nil_r.
  - exists l1, l2. split; [exact Hl |].
    destruct (rangeEnd
              =? Z.of_nat (length (children (insert p rangeStart
                                     (marker "w:commentRangeStart" id)))) - 1)%Z.
    + unfold append, insert. cbn [children with_children].
      rewrite omap_app, Hins. simpl. now rewrite app_nil_r.
    + unfold insert. cbn [children with_children].
      rewrite omap_lxml_insert by reflexivity. exact Hins.
Qed.

(** After [link_comment] the [comment_id] of a paragraph is the id when
    the paragraph had no comment range before, and [None] when it had one:
    a paragraph with two comments has no [comment_id]. The positions make
    no difference. *)
Theorem comment_id_after_link_comment (p : element)
    (id rangeStart rangeEnd : Z) :
  (child_ids "w:commentRangeStart" p = [] ->
   CT_P_comment_id (CT_P_link_comment p id rangeStart rangeEnd)
   = inr (Some id))
  /\ (child_ids "w:commentRangeStart" p <> [] ->
      CT_P_comment_id (CT_P_link_comment p id rangeStart rangeEnd)
      = inr None).
Proof.
  destruct (child_ids_link_comment p id rangeStart rangeEnd)
    as (l1 & l2 & Hl & Hr).
  unfold CT_P_comment_id. rewrite Hr, Hl. split.
  - intros H. apply app_eq_nil in H as [-> ->].
    cbn [app only_id]. now rewrite py_int_pretty.
  - intros H. destruct l1 as [|a l1].
    + destruct l2 as [|b l2]; [now contradiction H | reflexivity].
    + cbn [app only_id]. now destruct l1.
Qed.

Lemma comment_id_after_link_comment_witness :
  CT_P_comment_id (CT_P_link_comment sample_paragraph 42 1 2)
  = inr (Some 42%Z)
  /\ CT_P_comment_id
       (CT_P_link_comment (CT_P_link_comment sample_paragraph 42 1 2) 43 0 0)
     = inr None.
Proof.
  split.
  - apply (proj1 (comment_id_after_link_comment sample_paragraph 42 1 2)).
    reflexivity.
  - apply (proj2 (comment_id_after_link_comment
                    (CT_P_link_comment sample_paragraph 42 1 2) 43 0 0)).
    discriminate.
Defined.

Section FootnoteId.

Variable set_rStyle : element -> string -> element.
Hypothesis set_rStyle_tag : forall e v, tag (set_rStyle e v) = tag e.

Lemma child_ids_update_first (l : list element) (v : string) :
  omap (fun c => if String.eqb (tag c) "w:footnoteReference"
                 then get_attr "w:id" (attrib c) else None)
       (update_first "w:rPr" (fun rPr => set_rStyle rPr v) l)
  = omap (fun c => if String.eqb (tag c) "w:footnoteReference"
                   then get_attr "w:id" (attrib c) else None) l.
Proof.
  induction l as [|c l IH]; [reflexivity |].
  cbn [update_first]. destruct (String.eqb (tag c) "w:rPr") eqn:E.
  - apply String.eqb_eq in E. cbn [omap list_omap].
    rewrite set_rStyle_tag, E. reflexivity.
  - cbn [omap list_omap]. now rewrite IH.
Qed.

Lemma child_ids_add_footnote_reference (r : element) (id : Z) :
  child_ids "w:footnoteReference" (add_footnote_reference set_rStyle r id)
  = child_ids "w:footnoteReference" r ++ [pretty id].
Proof.
  unfold child_ids, add_footnote_reference, append.
  cbn [children with_children]. rewrite omap_app, child_ids_update_first.
  f_equal. unfold CT_R.get_or_add_rPr.
  destruct (find "w:rPr" r); reflexivity.
Qed.

(** After [add_footnote_reference] the [footnote_id] of a run is the id
    when the run had no footnote reference before, and [None] when it had
    one. *)
Theorem footnote_id_after_add (r : element) (id : Z) :
  (child_ids "w:footnoteReference" r = [] ->
   CT_R_footnote_id (add_footnote_reference set_rStyle r id) = inr (Some id))
  /\ (child_ids "w:footnoteReference" r <> [] ->
      CT_R_footnote_id (add_footnote_reference set_rStyle r id) = inr None).
Proof.
  unfold CT_R_footnote_id. rewrite child_ids_add_footnote_reference. split.
  - intros ->. cbn [app only_id]. now rewrite py_int_pretty.
  - intros H. destruct (child_ids "w:footnoteReference" r) as [|a l];
      [now contradiction H |].
    cbn [app only_id]. now destruct l.
Qed.

End FootnoteId.

Lemma sample_set_rStyle_tag (e : element) (v : string) :
  tag (sample_set_rStyle e v) = tag e.
Proof. reflexivity. Qed.

Lemma footnote_id_after_add_witness :
  CT_R_footnote_id (add_footnote_reference sample_set_rStyle sample_run 3)
  = inr (Some 3%Z).
Proof.
  apply (proj1 (footnote_id_after_add sample_set_rStyle sample_set_rStyle_tag
                  sample_run 3)).
  reflexivity.
Defined.

(** ** [add_comment] on a run that is the root element of its document *)

Lemma pos_of_insert_fresh (t : gmap nat node) (x : nat) (n : node)
    (p : position) :
  pos_of t x = Some p -> pos_of (<[fresh (dom t) := n]> t) x = Some p.
Proof.
  unfold pos_of. intros H.
  destruct (decide (x = fresh (dom t))) as [-> | Hne].
  - rewrite fresh_lookup in H. discriminate.
  - now rewrite lookup_insert_ne by congruence.
Qed.

Lemma mark_comment_start_root (t : gmap nat node) (cs : list comment)
    (x : nat) (id : Z) :
  pos_of t x = Some Root ->
  mark_comment_start x id (State t cs)
  = (inl TypeError,
     State (<[fresh (dom t)
              := Node "w:commentRangeStart" [("w:id", pretty id)] Root []]> t)
       cs).
Proof.
  intros Hx. unfold mark_comment_start.
  rewrite (run_bind _ _ _ _ _ (run_new_element _ t cs)).
  erewrite run_bind; [| apply run_set_id, lookup_insert_eq].
  rewrite insert_insert_eq.
  rewrite addprevious_root; [reflexivity |].
  cbn [tree]. now apply pos_of_insert_fresh.
Qed.

Lemma addnext_root (self new : nat) (s : state) :
  pos_of (tree s) self = Some Root ->
  addnext self new s = (inl TypeError, s).
Proof. intros H. unfold addnext. now rewrite H. Qed.

Lemma mark_comment_end_root (t : gmap nat node) (cs : list comment)
    (x : nat) (id : Z) :
  pos_of t x = Some Root ->
  mark_comment_end x id (State t cs)
  = (inl TypeError,
     State (<[fresh (dom t)
              := Node "w:commentRangeEnd" [("w:id", pretty id)] Root []]> t)
       cs).
Proof.
  intros Hx. unfold mark_comment_end.
  rewrite (run_bind _ _ _ _ _ (run_new_element _ t cs)).
  erewrite run_bind; [| apply run_set_id, lookup_insert_eq].
  rewrite insert_insert_eq.
  unfold bind. rewrite addnext_root; [reflexivity |].
  cbn [tree]. now apply pos_of_insert_fresh.
Qed.

Lemma add_comment_steps (next_comment_id : list comment -> Z)
    (t : gmap nat node) (cs : list comment) (start_run end_run : nat)
    (author dtime comment_text : string) (initials : option string)
    (i : list N) :
  derive_initials author initials = inr i ->
  add_comment next_comment_id start_run end_run author dtime comment_text
    initials (State t cs)
  = let c := Comment (next_comment_id cs) author i dtime [comment_text] in
    bind (mark_comment_start start_run (next_comment_id cs))
      (fun _ => bind (mark_comment_end end_run (next_comment_id cs))
                  (fun _ => ret c))
      (State t (cs ++ [c])).
Proof.
  intros Hi. unfold add_comment. rewrite Hi, run_lift.
  unfold bind at 1. cbn [comments_add_comment tree comments].
  unfold bind at 1. cbn [comment_add_p tree comments _id c_author
                           c_initials c_dtime c_paragraphs app].
  now rewrite removelast_last.
Qed.

(** [add_comment] is not undone when it fails. With a start run that is
    the root element of its document, as a run is that was made and never
    put into a paragraph, it raises [TypeError] after the comment has gone
    into the comments part: the comment is there, no marker is, and the
    elements of the tree are what they were. *)
Theorem add_comment_start_unlinked (next_comment_id : list comment -> Z)
    (t : gmap nat node) (cs : list comment) (start_run end_run : nat)
    (author dtime comment_text : string) (initials : option string)
    (i : list N) :
  derive_initials author initials = inr i ->
  pos_of t start_run = Some Root ->
  exists t',
    add_comment next_comment_id start_run end_run author dtime comment_text
      initials (State t cs)
    = (inl TypeError,
       State t'
         (cs ++ [Comment (next_comment_id cs) author i dtime [comment_text]]))
    /\ (forall j n, t !! j = Some n -> t' !! j = Some n).
Proof.
  intros Hi Hp. rewrite (add_comment_steps _ _ _ _ _ _ _ _ _ _ Hi).
  cbv zeta. unfold bind at 1.
  rewrite (mark_comment_start_root _ _ _ _ Hp).
  eexists. split; [reflexivity |].
  intros j n Hj. rewrite lookup_insert_ne; [exact Hj |].
  intros <-. rewrite fresh_lookup in Hj. discriminate.
Qed.

Lemma add_comment_start_unlinked_witness :
  exists t',
    add_comment sample_next_comment_id 2 1 "Ryan Mannion" "now" "note" None
      (State sample_tree_loose [])
    = (inl TypeError,
       State t' ([] ++ [Comment (sample_next_comment_id []) "Ryan Mannion"
                          (code_points "RM") "now" ["note"]]))
    /\ (forall j n, sample_tree_loose !! j = Some n -> t' !! j = Some n).
Proof.
  apply (add_comment_start_unlinked sample_next_comment_id sample_tree_loose
           [] 2 1 "Ryan Mannion" "now" "note" None (code_points "RM"));
    reflexivity.
Defined.

(** With an end run that is the root element of its document
    [add_comment] raises [TypeError] half way: the comment is in the
    comments part, the start marker stands before the start run, and the
    end marker that was made is in no paragraph; the range is open. *)
Theorem add_comment_end_unlinked (next_comment_id : list comment -> Z)
    (t : gmap nat node) (cs : list comment) (start_run end_run : nat)
    (p : nat) (pre post : list nat) (ne : node)
    (author dtime comment_text : string) (initials : option string)
    (i : list N) :
  derive_initials author initials = inr i ->
  child_at t p pre start_run post ->
  t !! end_run = Some ne -> pos ne = Root ->
  exists t' crs cre,
    add_comment next_comment_id start_run end_run author dtime comment_text
      initials (State t cs)
    = (inl TypeError,
       State t'
         (cs ++ [Comment (next_comment_id cs) author i dtime [comment_text]]))
    /\ kids_of t' p = pre ++ crs :: start_run :: post
    /\ is_marker t' crs "w:commentRangeStart" (next_comment_id cs)
    /\ is_marker t' cre "w:commentRangeEnd" (next_comment_id cs)
    /\ pos_of t' cre = Some Root
    /\ t !! cre = None.
Proof.
  intros Hi Hch Hen Hpe. rewrite (add_comment_steps _ _ _ _ _ _ _ _ _ _ Hi).
  cbv zeta.
  set (c := Comment (next_comment_id cs) author i dtime [comment_text]).
  set (id := next_comment_id cs).
  destruct (mark_comment_start_spec t (cs ++ [c]) p pre start_run post id Hch)
    as (t1 & np & Hrun1 & Hp & H1p & H1c & H1o).
  set (crs := fresh (dom t)) in *.
  assert (Htc : t !! crs = None) by apply fresh_lookup.
  clearbody crs.
  assert (Hec : end_run <> crs) by (intros ->; congruence).
  destruct (parent_kept t t1 p crs end_run np ne _ Hp H1p H1o Hen Hec)
    as (ne' & Hen' & Hpe').
  assert (Hroot : pos_of t1 end_run = Some Root).
  { rewrite (pos_of_Some _ _ _ Hen'). congruence. }
  rewrite (run_bind _ _ _ _ _ Hrun1). unfold bind at 1.
  rewrite (mark_comment_end_root _ _ _ _ Hroot).
  set (cre := fresh (dom t1)).
  assert (H1cre : t1 !! cre = None) by apply fresh_lookup.
  clearbody cre.
  assert (Hpc : p <> cre) by (intros ->; congruence).
  assert (Hcc : crs <> cre) by (intros ->; congruence).
  exists (<[cre := Node "w:commentRangeEnd" [("w:id", pretty id)] Root []]> t1),
    crs, cre.
  split; [reflexivity |].
  split.
  { unfold kids_of. rewrite lookup_insert_ne by congruence. now rewrite H1p. }
  split.
  { eexists. split; [rewrite lookup_insert_ne by congruence; exact H1c |].
    split; reflexivity. }
  split.
  { eexists. split; [apply lookup_insert_eq |]. split; reflexivity. }
  split.
  { unfold pos_of. now rewrite lookup_insert_eq. }
  destruct (t !! cre) as [n|] eqn:E; [| reflexivity].
  exfalso. destruct (decide (cre = p)) as [-> | Hne]; [congruence |].
  rewrite <- H1o in E by congruence. congruence.
Qed.

Lemma sample_loose_run_1_child_at : child_at sample_tree_loose 0 [] 1 [].
Proof.
  exists (Node "w:r" [] (Under 0) []), (Node "w:p" [] Root [1]).
  split; [reflexivity |]. split; [reflexivity |].
  split; [reflexivity |]. split; [reflexivity |].
  split; [apply not_elem_of_nil | constructor].
Qed.

Lemma add_comment_end_unlinked_witness :
  exists t' crs cre,
    add_comment sample_next_comment_id 1 2 "Ryan Mannion" "now" "note" None
      (State sample_tree_loose [])
    = (inl TypeError,
       State t' ([] ++ [Comment (sample_next_comment_id []) "Ryan Mannion"
                          (code_points "RM") "now" ["note"]]))
    /\ kids_of t' 0 = [] ++ crs :: 1 :: []
    /\ is_marker t' crs "w:commentRangeStart" (sample_next_comment_id [])
    /\ is_marker t' cre "w:commentRangeEnd" (sample_next_comment_id [])
    /\ pos_of t' cre = Some Root
    /\ sample_tree_loose !! cre = None.
Proof.
  apply (add_comment_end_unlinked sample_next_comment_id sample_tree_loose
           [] 1 2 0 [] [] (Node "w:r" [] Root []) "Ryan Mannion" "now" "note"
           None (code_points "RM")).
  - reflexivity.
  - exact sample_loose_run_1_child_at.
  - reflexivity.
  - reflexivity.
Defined.

(** ** Run properties are moved, not copied *)











(** ** The [rpr] setter of an insertion or a deletion *)









(** ** Clearing a paragraph that has comments *)

Section ParagraphClear.

Variable next_comment_id : list comment -> Z.
Variable Hyperlink_text : element -> string.

Lemma filter_lxml_insert (f : element -> bool) (index : Z) (x : element)
    (l : list element) :
  f x = false -> List.filter f (lxml_insert index x l) = List.filter f l.
Proof.
  intros Hx. destruct (lxml_insert_split index x l) as [i ->].
  rewrite List.filter_app. cbn [List.filter]. rewrite Hx.
  rewrite <- List.filter_app. now rewrite take_drop.
Qed.

Lemma clear_content_link_comment (p : element) (id rangeStart rangeEnd : Z) :
  CT_P_clear_content (CT_P_link_comment p id rangeStart rangeEnd)
  = CT_P_clear_content p.
Proof.
  unfold CT_P_clear_content, CT_P_link_comment.
  destruct ((rangeStart =? 0) && (rangeEnd =? 0))%Z.
  - unfold append, insert, with_children. cbn [children tag attrib text].
    rewrite List.filter_app, filter_lxml_insert by reflexivity.
    cbn. now rewrite app_nil_r.
  - destruct (rangeEnd
              =? Z.of_nat (length (children (insert p rangeStart
                                     (marker "w:commentRangeStart" id)))) - 1)%Z.
    + unfold append, insert, with_children. cbn [children tag attrib text].
      rewrite List.filter_app, filter_lxml_insert by reflexivity.
      cbn. now rewrite app_nil_r.
    + unfold insert, with_children. cbn [children tag attrib text].
      now rewrite !filter_lxml_insert by reflexivity.
Qed.

Lemma omap_filter_none {B} (f : element -> option B) (g : element -> bool)
    (l : list element) :
  (forall e, g e = true -> f e = None) -> omap f (List.filter g l) = [].
Proof.
  intros H. induction l as [|e l IH]; [reflexivity |].
  cbn [List.filter]. destruct (g e) eqn:He; [| exact IH].
  cbn [omap list_omap]. now rewrite (H e He).
Qed.

(** [clear_content] of a paragraph takes the comment away with the
    content: the range markers and the run of the reference go, whatever
    the positions were, and what is left has no text and no
    [comment_id]. The comment itself stays in the comments part. *)
Theorem clear_content_drops_comment (p : element) (cs : list comment)
    (author initials dtime comment_text : string)
    (id rangeStart rangeEnd : Z) :
  CT_P_clear_content (CT_P_link_comment p id rangeStart rangeEnd)
  = CT_P_clear_content p
  /\ CT_P_clear_content
       (snd (fst (add_comm next_comment_id p cs author initials dtime
                    comment_text rangeStart rangeEnd)))
     = CT_P_clear_content p
  /\ CT_P_text Hyperlink_text (CT_P_clear_content p) = ""
  /\ CT_P_comment_id (CT_P_clear_content p) = inr None.
Proof.
  split; [apply clear_content_link_comment |].
  split.
  { unfold add_comm. cbn [fst snd]. rewrite clear_content_link_comment.
    unfold CT_P_clear_content, add_reference_run, append, with_children.
    cbn [children tag attrib text]. rewrite List.filter_app.
    cbn. now rewrite app_nil_r. }
  split.
  - unfold CT_P_text, CT_P_clear_content. cbn [children with_children].
    rewrite omap_filter_none; [reflexivity |].
    intros e He. apply String.eqb_eq in He. unfold CT_P_item_text.
    now rewrite He.
  - unfold CT_P_comment_id, child_ids, CT_P_clear_content.
    cbn [children with_children].
    rewrite omap_filter_none; [reflexivity |].
    intros e He. apply String.eqb_eq in He. now rewrite He.
Qed.

End ParagraphClear.

Lemma clear_content_definitions_agree_witness :
  CT_R.clear_content sample_run = CT_R.clear_content_xpath sample_run.
Proof. exact (clear_content_definitions_agree sample_run eq_refl). Defined.

(** ** A text that lxml refuses *)

(** When the appender raises, what it has added is what it adds for the
    text up to some tab or line end, or nothing. *)
Lemma written_from_stops (s : string) :
  forall bfr : list ascii,
    snd (written_from bfr s) = Some ValueError ->
    fst (written_from bfr s) = []
    \/ exists (p : string) (c : ascii) (q : string),
         s = (p ++ String c q)%string /\ is_separator c = true
         /\ xml_text (string_of_list_ascii bfr ++ p) = true
         /\ fst (written_from bfr s) = atoms_from bfr (p ++ String c "").
Proof.
  induction s as [|c s IH]; intros bfr; cbn [written_from].
  - destruct (xml_text (string_of_list_ascii bfr)); [discriminate | now left].
  - destruct (Ascii.eqb c TAB) eqn:Etab.
    + destruct (xml_text (string_of_list_ascii bfr)) eqn:Eb; [| now left].
      cbn [fst snd]. intros H. right.
      destruct (IH [] H) as [Hnil | (p & c' & q & Hs & Hc & Hp & Hw)].
      * exists "", c, s. rewrite Hnil, !append_nil, append_empty_r.
        split; [reflexivity |].
        split; [unfold is_separator; now rewrite Etab |].
        split; [exact Eb |].
        cbn [atoms_from flushed]. now rewrite Etab.
      * exists (String c p), c', q. rewrite Hw, Hs.
        split; [reflexivity |]. split; [exact Hc |].
        split.
        { rewrite xml_text_app, Eb. cbn [xml_text andb].
          apply Ascii.eqb_eq in Etab. subst c. exact Hp. }
        rewrite append_cons. cbn [atoms_from]. now rewrite Etab.
    + destruct (Ascii.eqb c CR || Ascii.eqb c LF) eqn:Ebr.
      * destruct (xml_text (string_of_list_ascii bfr)) eqn:Eb; [| now left].
        cbn [fst snd]. intros H. right.
        destruct (IH [] H) as [Hnil | (p & c' & q & Hs & Hc & Hp & Hw)].
        -- exists "", c, s. rewrite Hnil, !append_nil, append_empty_r.
           split; [reflexivity |].
           split; [unfold is_separator; now rewrite Etab, <- orb_assoc, Ebr |].
           split; [exact Eb |].
           cbn [atoms_from flushed]. now rewrite Etab, Ebr.
        -- exists (String c p), c', q. rewrite Hw, Hs.
           split; [reflexivity |]. split; [exact Hc |].
           split.
           { rewrite xml_text_app, Eb. cbn [xml_text andb].
             rewrite append_nil in Hp. rewrite Hp, andb_true_r.
             apply orb_true_iff in Ebr as [E | E];
               apply Ascii.eqb_eq in E; now subst c. }
           rewrite append_cons. cbn [atoms_from]. now rewrite Etab, Ebr.
      * intros H.
        destruct (IH (bfr ++ [c]) H)
          as [Hnil | (p & c' & q & Hs & Hc & Hp & Hw)]; [now left |].
        right. exists (String c p), c', q. rewrite Hw, Hs.
        split; [reflexivity |]. split; [exact Hc |].
        split.
        { rewrite <- Hp, string_of_list_ascii_snoc, append_assoc.
          reflexivity. }
        rewrite append_cons. cbn [atoms_from]. now rewrite Etab, Ebr.
Qed.

Lemma xml_separator (c : ascii) : is_separator c = true -> xml_char c = true.
Proof.
  unfold is_separator. intros H.
  apply orb_true_iff in H as [H | H]; [apply orb_true_iff in H as [H | H] |];
    apply Ascii.eqb_eq in H; now subst c.
Qed.

(** The content of a text that lxml refuses is the content of a part of it
    that lxml takes and that ends where the text goes on. *)
Lemma encode_stops (s : string) :
  xml_text s = false ->
  exists p q : string,
    s = (p ++ q)%string /\ q <> EmptyString /\ xml_text p = true
    /\ encode s = encode p.
Proof.
  intros Hs.
  assert (Hr : snd (written_from [] s) = Some ValueError).
  { rewrite written_from_raises. cbn [string_of_list_ascii].
    now rewrite append_nil, Hs. }
  destruct (written_from_stops s [] Hr)
    as [Hnil | (p & c & q & Hsp & Hc & Hp & Hw)].
  - exists "", s. split; [reflexivity |].
    split; [intros ->; discriminate |]. split; [reflexivity |].
    now rewrite encode_spec.
  - cbn [string_of_list_ascii] in Hp. rewrite append_nil in Hp.
    assert (Hpc : xml_text (p ++ String c "") = true).
    { rewrite xml_text_app, Hp. cbn [xml_text].
      now rewrite (xml_separator c Hc). }
    exists (p ++ String c "")%string, q.
    split; [now rewrite append_assoc |].
    split.
    { intros ->. rewrite Hsp, xml_text_app in Hs. cbn [xml_text] in Hs.
      rewrite Hp, (xml_separator c Hc) in Hs. discriminate. }
    split; [exact Hpc |].
    now rewrite (encode_xml _ Hpc), encode_spec.
Qed.

(** The text setters are not undone when lxml refuses the text. They raise
    [ValueError] exactly when the text has a character that is not XML;
    the old content of the run is gone by then, and the run is left as
    setting a part of the text would have left it, a part that stops
    before the text does: the text read back is that part. *)
Theorem text_setters_stop_half_way (r : element) (s : string) :
  rPr_leading r = true -> xml_text s = false ->
  exists p q : string,
    s = (p ++ q)%string /\ q <> EmptyString /\ xml_text p = true
    /\ CT_R_set_text r s = (fst (CT_R_set_text r p), Some ValueError)
    /\ CT_R.text (fst (CT_R_set_text r s)) = cr_to_lf p
    /\ CT_R_set_deltext r s = (fst (CT_R_set_deltext r p), Some ValueError)
    /\ CT_R_deltext (fst (CT_R_set_deltext r s)) = cr_to_lf p.
Proof.
  intros Hr Hs.
  destruct (encode_stops s Hs) as (p & q & Hpq & Hq & Hp & He).
  exists p, q. split; [exact Hpq |]. split; [exact Hq |].
  split; [exact Hp |].
  assert (H1 : CT_R_set_text r s = (fst (CT_R_set_text r p), Some ValueError)).
  { unfold CT_R_set_text. rewrite !append_to_run_spec.
    rewrite written_from_raises. cbn [string_of_list_ascii fst].
    now rewrite append_nil, Hs, <- !encode_spec, He. }
  assert (H2 : CT_R_set_deltext r s
               = (fst (CT_R_set_deltext r p), Some ValueError)).
  { unfold CT_R_set_deltext. rewrite !del_append_to_run_spec.
    rewrite written_from_raises. cbn [string_of_list_ascii fst].
    now rewrite append_nil, Hs, He. }
  split; [exact H1 |].
  split.
  { rewrite H1. cbn [fst].
    rewrite text_after_set_text, text_is_text_of, clear_content_children
      by assumption.
    now rewrite text_of_rPr. }
  split; [exact H2 |].
  rewrite H2. cbn [fst]. unfold CT_R_deltext.
  rewrite set_deltext_children, deltext_app, deltext_rPr by assumption.
  rewrite append_nil, (deltext_map to_del item_text).
  - now rewrite join_item_text, text_of_encode.
  - apply encode_Forall; intros; reflexivity.
Qed.

Lemma text_setters_stop_half_way_witness :
  exists p q : string,
    sample_refused_text = (p ++ q)%string /\ q <> EmptyString
    /\ xml_text p = true
    /\ CT_R_set_text sample_run sample_refused_text
       = (fst (CT_R_set_text sample_run p), Some ValueError)
    /\ CT_R.text (fst (CT_R_set_text sample_run sample_refused_text))
       = cr_to_lf p
    /\ CT_R_set_deltext sample_run sample_refused_text
       = (fst (CT_R_set_deltext sample_run p), Some ValueError)
    /\ CT_R_deltext (fst (CT_R_set_deltext sample_run sample_refused_text))
       = cr_to_lf p.
Proof.
  exact (text_setters_stop_half_way sample_run sample_refused_text
           eq_refl eq_refl).
Defined.

(** ** A run that was taken out of its parent *)

(** [mark_comment_start] on a run that [remove] has taken out of its
    parent raises nothing: the run is no root element, lxml links the new
    [w:commentRangeStart] before it, and the two are siblings without a
    parent. The marker is in no paragraph. *)
Theorem mark_comment_start_removed_run (t : gmap nat node)
    (cs : list comment) (x : nat) (nx : node) (id : Z) :
  t !! x = Some nx -> pos nx = Beside [x] ->
  exists t' crs,
    mark_comment_start x id (State t cs) = (inr tt, State t' cs)
    /\ t !! crs = None
    /\ is_marker t' crs "w:commentRangeStart" id
    /\ pos_of t' crs = Some (Beside [crs; x])
    /\ pos_of t' x = Some (Beside [crs; x])
    /\ getparent t' crs = None
    /\ (forall j, j <> crs -> j <> x -> t' !! j = t !! j).
Proof.
  intros Hx Hpx. unfold mark_comment_start.
  rewrite (run_bind _ _ _ _ _ (run_new_element _ t cs)).
  erewrite run_bind; [| apply run_set_id, lookup_insert_eq].
  rewrite insert_insert_eq.
  set (crs := fresh (dom t)).
  assert (Htc : t !! crs = None) by apply fresh_lookup.
  clearbody crs.
  assert (Hxc : x <> crs) by (intros ->; congruence).
  set (n := Node "w:commentRangeStart" [("w:id", pretty id)] Root []).
  change (set_nattrib (Node "w:commentRangeStart" [] Root []) "w:id"
            (pretty id)) with n.
  unfold addprevious. cbn [tree comments].
  assert (Hpos : pos_of (<[crs := n]> t) x = Some (Beside [x])).
  { unfold pos_of. rewrite lookup_insert_ne by congruence.
    now rewrite Hx, <- Hpx. }
  rewrite Hpos.
  rewrite (detach_unlinked crs n) by (apply lookup_insert_eq || reflexivity).
  unfold row_of. rewrite Hpos.
  cbn [insert_before]. rewrite decide_True by reflexivity.
  cbn [relink fold_right].
  exists (alter (fun n0 => set_pos n0 (Beside [crs; x])) crs
            (alter (fun n0 => set_pos n0 (Beside [crs; x])) x
               (<[crs := n]> t))), crs.
  split; [reflexivity |].
  split; [exact Htc |].
  assert (Hc' : alter (fun n0 => set_pos n0 (Beside [crs; x])) crs
                  (alter (fun n0 => set_pos n0 (Beside [crs; x])) x
                     (<[crs := n]> t)) !! crs
                = Some (set_pos n (Beside [crs; x]))).
  { rewrite lookup_alter_eq, lookup_alter_ne by congruence.
    now rewrite lookup_insert_eq. }
  split.
  { eexists. split; [exact Hc' |]. split; reflexivity. }
  split.
  { unfold pos_of. now rewrite Hc'. }
  split.
  { unfold pos_of. rewrite lookup_alter_ne, lookup_alter_eq by congruence.
    rewrite lookup_insert_ne by congruence. now rewrite Hx. }
  split.
  { unfold getparent, pos_of. now rewrite Hc'. }
  intros j Hjc Hjx. rewrite !lookup_alter_ne by congruence.
  now rewrite lookup_insert_ne by congruence.
Qed.

Lemma mark_comment_start_removed_run_witness :
  exists t' crs,
    mark_comment_start 2 7 (State sample_tree_removed [])
    = (inr tt, State t' [])
    /\ sample_tree_removed !! crs = None
    /\ is_marker t' crs "w:commentRangeStart" 7
    /\ pos_of t' crs = Some (Beside [crs; 2])
    /\ pos_of t' 2 = Some (Beside [crs; 2])
    /\ getparent t' crs = None
    /\ (forall j, j <> crs -> j <> 2 -> t' !! j = sample_tree_removed !! j).
Proof.
  exact (mark_comment_start_removed_run sample_tree_removed [] 2
           (Node "w:r" [] (Beside [2]) []) 7 eq_refl eq_refl).
Defined.
